(** * The GNS3 dynamic inventory plugin

    A shallow embedding of [plugins/inventory/gns3.py] (class
    [InventoryModule]) and the properties of its resolution-and-mapping
    pipeline: project resolution, node fetching through the cache, host
    naming and deduplication, connection variables and group assignment.

    The plugin is stateful code around four collaborators: the URL parser,
    the controller behind HTTP, the cache backend and the inventory with
    its constructed-variables evaluator.  A run is a function on a [world]
    that records the requests made, the cache, and the calls made on the
    inventory; it ends normally or with a [failure].  The controller's
    answers and the evaluator's exceptions are parameters
    ([collaborators]), so every property holds whatever they are. *)

From Stdlib Require Import ZArith Ascii String.
From stdpp Require Import gmap strings list.

Open Scope string_scope.
Open Scope list_scope.
Set Warnings "-register-all,-clear-no-such-hyp".

(** ** Python values *)

(** What [json.loads] yields.  A float is kept as its literal: the plugin
    never computes with one. *)
Inductive json :=
| JNull
| JBool (b : bool)
| JInt (z : Z)
| JFloat (literal : string)
| JStr (s : string)
| JArr (items : list json)
| JObj (members : list (string * json)).

(** A field that the controller types as a string reads, through
    [dict.get], as that string or as [None] (key absent, or null). *)
Definition of_str (o : option string) : json :=
  match o with Some s => JStr s | None => JNull end.

(** A str-or-None in a condition: [None] and the empty string are false;
    [nonempty] keeps the string of a true one. *)
Definition nonempty (o : option string) : option string :=
  match o with
  | Some s => if bool_decide (s = "") then None else Some s
  | None => None
  end.

Definition truthy (o : option string) : bool :=
  match nonempty o with Some _ => true | None => false end.

(** [a or b] *)
Definition py_or (a b : option string) : option string :=
  if truthy a then a else b.

(** [isinstance(v, int)]: [bool] is a subclass of [int]. *)
Definition isinstance_int (v : json) : option Z :=
  match v with
  | JInt z => Some z
  | JBool b => Some (if b then 1 else 0)%Z
  | _ => None
  end.

(** [format(v)] of a str-or-None inside an f-string. *)
Definition fmt (o : option string) : string :=
  match o with Some s => s | None => "None" end.

Fixpoint string_drop (n : nat) (s : string) : string :=
  match n, s with
  | O, _ => s
  | S _, EmptyString => EmptyString
  | S n', String _ s' => string_drop n' s'
  end.

(** [s[-k:]] for [k > 0]: the last [k] characters, all of [s] when it is
    shorter.  Node ids are ASCII, one byte a character. *)
Definition slice_last (k : nat) (s : string) : string :=
  string_drop (String.length s - k) s.

(** [s.rstrip("/")] *)
Fixpoint rstrip_slash (s : string) : string :=
  match s with
  | EmptyString => EmptyString
  | String c s' =>
      let r := rstrip_slash s' in
      if Ascii.eqb c "/" && bool_decide (r = "") then "" else String c r
  end.

(** An exception raised by a collaborator, by its text. *)
Inductive py_exception := PyException (text : string).

(** ** Errors

    What the plugin itself raises is an [AnsibleParserError]; the
    constructors are its raise sites. *)
Inductive AnsibleParserError :=
| project_id_not_found (project_id : string)
| project_name_not_found (project_name : string)
| multiple_projects (project_name : string)
| no_selector
| http_error (url : string) (orig_exc : py_exception).

Definition message (e : AnsibleParserError) : string :=
  match e with
  | project_id_not_found project_id =>
      "GNS3 inventory: project_id not found: " +:+ project_id
  | project_name_not_found project_name =>
      "GNS3 inventory: project_name not found: " +:+ project_name
  | multiple_projects project_name =>
      "GNS3 inventory: multiple projects match name '" +:+ project_name
        +:+ "'. Use project_id instead."
  | no_selector =>
      "GNS3 inventory: you must set either project_id or project_name."
  | http_error url (PyException text) =>
      "GNS3 inventory: HTTP error for " +:+ url +:+ ": " +:+ text
  end.

(** The error taxonomy of the design. *)
Inductive error_kind :=
| MissingSelector | NotFound | AmbiguousSelector | TransportError
| CompositionError.

Definition kind (e : AnsibleParserError) : error_kind :=
  match e with
  | project_id_not_found _ | project_name_not_found _ => NotFound
  | multiple_projects _ => AmbiguousSelector
  | no_selector => MissingSelector
  | http_error _ _ => TransportError
  end.

(** The cause an error wraps ([orig_exc]). *)
Definition orig_exc (e : AnsibleParserError) : option py_exception :=
  match e with
  | http_error _ c => Some c
  | _ => None
  end.

(** What ends a run early: an error the plugin raised, or the exception
    the evaluator raised, which the plugin lets through. *)
Inductive failure :=
| raised (e : AnsibleParserError)
| evaluation_error (cause : py_exception).

Definition failure_kind (f : failure) : error_kind :=
  match f with
  | raised e => kind e
  | evaluation_error _ => CompositionError
  end.

(** ** Project resolution *)

(** A project object of [GET /v2/projects]. *)
Record project := Project {
  p_project_id : option string;
  p_name : option string
}.

Global Instance project_eq_dec : EqDecision project.
Proof. solve_decision. Defined.

(** Lines 114-117: the [for] loop of the [project_id] branch. *)
Fixpoint scan_project_id (projects : list project) (project_id : string)
  : AnsibleParserError + option string :=
  match projects with
  | [] => inl (project_id_not_found project_id)
  | p :: rest =>
      if bool_decide (p_project_id p = Some project_id)
      then inr (Some project_id)
      else scan_project_id rest project_id
  end.

Definition name_matches (project_name : string) (p : project) : Prop :=
  p_name p = Some project_name.

Global Instance name_matches_dec project_name p :
  Decision (name_matches project_name p).
Proof. unfold name_matches. apply _. Defined.

Definition _find_project_id (projects : list project)
    (project_id project_name : option string)
  : AnsibleParserError + option string :=
  match nonempty project_id with
  | Some project_id => scan_project_id projects project_id
  | None =>
      match nonempty project_name with
      | Some project_name =>
          let matches := filter (name_matches project_name) projects in
          match matches with
          | [] => inl (project_name_not_found project_name)
          | first :: _ =>
              if bool_decide (1 < length matches)%nat
              then inl (multiple_projects project_name)
              else inr (p_project_id first)
          end
      | None => inl no_selector
      end
  end.

(** ** Nodes, options and the inventory *)

(** A node object of [GET /v2/projects/{project_id}/nodes].  The fields the
    plugin reads as text are a string or [None]; those it only copies, and
    the console port it type-tests, are raw values. *)
Record node := Node {
  node_id : option string;
  node_name : option string;
  node_type : option string;
  status : json;
  console_type : json;
  console_host : option string;
  console : json
}.

(** The options of the inventory source ([get_option]); [cache_option] is
    the option named [cache]. *)
Record options := Options {
  url : string;
  project_id : option string;
  project_name : option string;
  validate_certs : bool;
  group : string;
  host_naming : string;
  port_offset : option Z;
  group_by_node_type : bool;
  cache_option : bool;
  strict : bool
}.

(** The three calls into the constructed-variables evaluator. *)
Inductive hook :=
| _set_composite_vars
| _add_host_to_composed_groups
| _add_host_to_keyed_groups.

(** The calls the plugin makes on [self.inventory] and on the evaluator,
    in order. *)
Inductive inv_event :=
| add_group (group : string)
| add_host (host : string) (group : string)
| set_variable (host : string) (varname : string) (value : json)
| add_child (group : string) (child : string)
| constructed (h : hook) (host : string) (strict : bool).

(** The cached payload [{"project_id": pid, "nodes": nodes}]: a dict of
    two keys, hence never false in a condition. *)
Record source := Source {
  source_project_id : option string;
  source_nodes : list node
}.

(** What a run acts on: the controller (the URLs requested so far), the
    cache backend and the inventory (the calls made so far). *)
Record world := World {
  requests : list string;
  _cache : gmap string source;
  inventory : list inv_event
}.

(** The collaborators outside the plugin: [urlparse(...).hostname], the
    controller behind [open_url] followed by [json.loads] at its two
    endpoints, and the evaluator, which may raise after the calls made so
    far. *)
Record collaborators := Collaborators {
  urlparse_hostname : string → option string;
  get_projects : string → bool → py_exception + list project;
  get_nodes : string → bool → py_exception + list node;
  evaluator : list inv_event → option py_exception
}.

(** ** Effects: state and failure *)

Definition M (A : Type) : Type := world → world * (failure + A).

Global Instance M_ret : MRet M := λ A x w, (w, inr x).

Global Instance M_bind : MBind M := λ A B f m w,
  match m w with
  | (w', inr x) => f x w'
  | (w', inl e) => (w', inl e)
  end.

Definition lift {A} (r : AnsibleParserError + A) : M A :=
  λ w, (w, match r with inl e => inl (raised e) | inr x => inr x end).

Definition cache_get (cache_key : string) : M (option source) :=
  λ w, (w, inr (_cache w !! cache_key)).

Definition cache_set (cache_key : string) (v : source) : M unit :=
  λ w, (World (requests w) (<[cache_key := v]> (_cache w)) (inventory w), inr ()).

(** A call on [self.inventory].  The store is taken to accept it: what
    Ansible's store itself refuses (a group made a child of itself, say)
    is not part of the plugin and not modelled. *)
Definition emit (e : inv_event) : M unit :=
  λ w, (World (requests w) (_cache w) (inventory w ++ [e]), inr ()).

Fixpoint emit_all (es : list inv_event) : M unit :=
  match es with
  | [] => mret ()
  | e :: es' => emit e ;; emit_all es'
  end.

(** [_http_get_json]: one GET, never repeated; any failure of the
    transport or of the decoding is re-raised with the cause in
    [orig_exc].  [open_url] is the endpoint the URL belongs to. *)
Definition _http_get_json {A} (open_url : string → bool → py_exception + A)
    (url : string) (validate_certs : bool) : M A :=
  λ w,
    let w' := World (requests w ++ [url]) (_cache w) (inventory w) in
    match open_url url validate_certs with
    | inr v => (w', inr v)
    | inl e => (w', inl (raised (http_error url e)))
    end.

(** ** The host mapper (body of the loop of [parse]) *)

(** [o or ""] *)
Definition or_empty (o : option string) : string :=
  match nonempty o with Some s => s | None => "" end.

(** Lines 187-188:
    [host = node_name if host_naming == "name" else node_id;
     host = host or node_name or node_id] *)
Definition candidate (host_naming : string) (n : node) : option string :=
  let host :=
    if bool_decide (host_naming = "name") then node_name n else node_id n in
  py_or (py_or host (node_name n)) (node_id n).

(** Line 193: [(node_id or "")[-6:] if node_id else "dup"] *)
Definition suffix (n : node) : string :=
  if truthy (node_id n) then slice_last 6 (or_empty (node_id n)) else "dup".

(** Lines 192-194: [if host in seen: host = f"{host}_{suffix}"] *)
Definition dedup (seen : gset string) (host : string) (n : node) : string :=
  if bool_decide (host ∈ seen) then host +:+ "_" +:+ suffix n else host.

(** Lines 210-212:
    [console_host = n.get("console_host") or controller_host], replaced by
    [controller_host] when it is one of [("0.0.0.0", "::")]. *)
Definition connection_host (controller_host : string) (n : node) : string :=
  let console_host :=
    match nonempty (console_host n) with
    | Some h => h
    | None => controller_host
    end in
  if bool_decide (console_host = "0.0.0.0") || bool_decide (console_host = "::")
  then controller_host
  else console_host.

(** Lines 200-220, the [set_variable] calls for one host: the standard
    variables, then [ansible_host] and, for a console port that passes
    [isinstance(console_port, int)], [ansible_port]. *)
Definition host_vars (pid : option string) (controller_host : string)
    (port_offset : Z) (host : string) (n : node) : list inv_event :=
  [ set_variable host "gns3_project_id" (of_str pid);
    set_variable host "gns3_node_id" (of_str (node_id n));
    set_variable host "gns3_node_name" (of_str (node_name n));
    set_variable host "gns3_node_type" (of_str (node_type n));
    set_variable host "gns3_status" (status n);
    set_variable host "gns3_console_type" (console_type n);
    set_variable host "gns3_console_host" (of_str (console_host n));
    set_variable host "gns3_console_port" (console n) ]
  ++
  let console_host := connection_host controller_host n in
  let console_port := console n in
  match isinstance_int console_port with
  | Some port =>
      [ set_variable host "ansible_host" (JStr console_host);
        set_variable host "ansible_port" (JInt (port + port_offset)) ]
  | None =>
      [ set_variable host "ansible_host" (JStr console_host) ]
  end.

(** Lines 223-226: [if group_by_node_type and node_type:] the type group
    is created and the host put in it. *)
Definition type_group (group_by_node_type : bool) (host : string) (n : node)
  : list inv_event :=
  if group_by_node_type && truthy (node_type n) then
    let g := "gns3_type_" +:+ fmt (node_type n) in
    [ add_group g; add_child g host ]
  else [].

Section Plugin.
Variable env : collaborators.

(** Lines 87-88: [urlparse(base_url).hostname or base_url].  The URL is
    taken to be one that [urlparse] splits; on a malformed one (an unclosed
    bracket, say) it raises, before any request is made. *)
Definition _controller_host_from_url (base_url : string) : string :=
  match nonempty (urlparse_hostname env base_url) with
  | Some hostname => hostname
  | None => base_url
  end.

(** Lines 228-231: a call into the evaluator, on the variables of the
    host as the inventory has them; it may raise. *)
Definition call_hook (h : hook) (host : string) (strict : bool) : M unit :=
  λ w,
    let w' := World (requests w) (_cache w)
                (inventory w ++ [constructed h host strict]) in
    match evaluator env (inventory w') with
    | Some e => (w', inl (evaluation_error e))
    | None => (w', inr ())
    end.

(** Lines 181-231, one iteration of [for n in nodes]: a node without
    identifier is passed over ([continue]); the result is [seen]. *)
Definition process_node (opts : options) (pid : option string)
    (controller_host : string) (n : node) (seen : gset string)
  : M (gset string) :=
  match nonempty (candidate (host_naming opts) n) with
  | None => mret seen
  | Some host =>
      let host := dedup seen host n in
      let seen := seen ∪ {[ host ]} in
      emit (add_host host (group opts)) ;;
      emit_all (host_vars pid controller_host
                  (default 0%Z (port_offset opts)) host n) ;;
      emit_all (type_group (group_by_node_type opts) host n) ;;
      call_hook _set_composite_vars host (strict opts) ;;
      call_hook _add_host_to_composed_groups host (strict opts) ;;
      call_hook _add_host_to_keyed_groups host (strict opts) ;;
      mret seen
  end.

Fixpoint for_nodes (opts : options) (pid : option string)
    (controller_host : string) (nodes : list node) (seen : gset string)
  : M (gset string) :=
  match nodes with
  | [] => mret seen
  | n :: rest =>
      seen ← process_node opts pid controller_host n seen ;
      for_nodes opts pid controller_host rest seen
  end.

(** Lines 156-170, the fetch stage of [parse]: the cached payload, or the
    two remote calls around the project resolution, and the cache write. *)
Definition fetch (opts : options) (cache_key : string) (use_cache : bool)
  : M source :=
  let base_url := rstrip_slash (url opts) in
  source ← (if use_cache then cache_get cache_key else mret None) ;
  match source with
  | Some source => mret source
  | None =>
      projects ← _http_get_json (get_projects env)
                    (base_url +:+ "/v2/projects") (validate_certs opts) ;
      pid ← lift (_find_project_id projects
                    (project_id opts) (project_name opts)) ;
      nodes ← _http_get_json (get_nodes env)
                 (base_url +:+ "/v2/projects/" +:+ fmt pid +:+ "/nodes")
                 (validate_certs opts) ;
      let source := Source pid nodes in
      (if use_cache then cache_set cache_key source else mret ()) ;;
      mret source
  end.

(** [parse], from the options read by [_read_config_data] on: [cache_key]
    is [get_cache_key(path)], [cache] the argument of that name. *)
Definition parse (opts : options) (cache_key : string) (cache : bool)
  : M unit :=
  let base_url := rstrip_slash (url opts) in
  let controller_host := _controller_host_from_url base_url in
  let use_cache := cache && cache_option opts in
  source ← fetch opts cache_key use_cache ;
  let pid := source_project_id source in
  let nodes := source_nodes source in
  emit (add_group (group opts)) ;;
  for_nodes opts pid controller_host nodes ∅ ;;
  mret ().

End Plugin.

(** ** Recognising the inventory source ([verify_file]) *)

(** [s.endswith(suffix)] *)
Definition endswith (s suffix : string) : bool :=
  bool_decide (string_drop (String.length s - String.length suffix) s = suffix).

Definition dquote : string := String (Ascii.ascii_of_nat 34) "".

(** The text passed to [self.display.vvv]. *)
Definition skipping_message : string :=
  "Skipping due to inventory source not ending in " +:+ dquote +:+ "gns3.yaml"
    +:+ dquote +:+ " nor " +:+ dquote +:+ "gns3.yml" +:+ dquote.

(** Lines 90-97.  [super_verify_file] is the check of the base class: its
    result and what it displayed itself (it displays a message of its own
    when it rejects a path).  The result is [valid] and all that was
    displayed, in order. *)
Definition verify_file (super_verify_file : string → bool * list string)
    (path : string) : bool * list string :=
  let (ok, displayed) := super_verify_file path in
  if ok then
    if endswith path "gns3.yaml" || endswith path "gns3.yml"
    then (true, displayed)
    else (false, displayed ++ [skipping_message])
  else (false, displayed).

(** ** Vocabulary of the properties *)

(** A result that is a failure of the given kind. *)
Definition fails_with {A} (r : AnsibleParserError + A) (k : error_kind) : Prop :=
  ∃ e, r = inl e ∧ kind e = k.

(** A str-or-None is given, as [s], when it is the non-empty string [s]:
    what a condition such as [if project_id:] tests. *)
Definition given (o : option string) (s : string) : Prop :=
  o = Some s ∧ s ≠ "".

(** [k] slashes. *)
Fixpoint slashes (k : nat) : string :=
  match k with O => "" | S k' => String "/" (slashes k') end.

(** A raw value that is a JSON integer. *)
Definition is_integer (v : json) : Prop := ∃ z, v = JInt z.

(** The evaluator calls that end an iteration of the loop. *)
Definition hook_events (host : string) (strict : bool) : list inv_event :=
  [ constructed _set_composite_vars host strict;
    constructed _add_host_to_composed_groups host strict;
    constructed _add_host_to_keyed_groups host strict ].

(** The inventory calls of one iteration, for a node mapped to [host]. *)
Definition mapped_events (opts : options) (pid : option string)
    (controller_host : string) (host : string) (n : node) : list inv_event :=
  add_host host (group opts)
    :: host_vars pid controller_host (default 0%Z (port_offset opts)) host n
    ++ type_group (group_by_node_type opts) host n.

(** The calls of a loop over some of [nodes]: for each node mapped, its
    inventory calls, then the evaluator calls up to the one that raised,
    if any. *)
Inductive iterations (opts : options) (pid : option string)
    (controller_host : string) (nodes : list node) : list inv_event → Prop :=
| iterations_nil : iterations opts pid controller_host nodes []
| iterations_cons host n hooks rest :
    n ∈ nodes →
    hooks `prefix_of` hook_events host (strict opts) →
    iterations opts pid controller_host nodes rest →
    iterations opts pid controller_host nodes
      (mapped_events opts pid controller_host host n ++ hooks ++ rest).

(** The calls a run added to the inventory of [w], seen from [w']. *)
Definition new_events (w w' : world) : list inv_event :=
  drop (length (inventory w)) (inventory w').

(** The value a sequence of calls leaves in variable [key] of [host]: that
    of the last [set_variable] on it, if any. *)
Definition assigns (host key : string) (e : inv_event) : option json :=
  match e with
  | set_variable h k v => if bool_decide (h = host ∧ k = key) then Some v else None
  | _ => None
  end.

Definition hostvar (host key : string) (evs : list inv_event) : option json :=
  last (omap (assigns host key) evs).

(** The identifiers of the hosts added, in order. *)
Definition added_host (e : inv_event) : option string :=
  match e with add_host h _ => Some h | _ => None end.

Definition added_hosts (evs : list inv_event) : list string :=
  omap added_host evs.

(** Modelled from the spec: the groups of the inventory store, which is
    Ansible's and not part of the plugin.  A group has a name and a set of
    member hosts; creating an existing group is a no-op; [add_host] and
    [add_child] put a host into an existing group.  What the evaluator adds
    is outside the pipeline. *)
Definition apply_event (groups : gmap string (gset string)) (e : inv_event)
  : gmap string (gset string) :=
  match e with
  | add_group g =>
      match groups !! g with
      | Some _ => groups
      | None => <[g := ∅]> groups
      end
  | add_host h g => alter (λ members, {[ h ]} ∪ members) g groups
  | add_child g h => alter (λ members, {[ h ]} ∪ members) g groups
  | set_variable _ _ _ | constructed _ _ _ => groups
  end.

Definition groups_of (evs : list inv_event) : gmap string (gset string) :=
  foldl apply_event ∅ evs.

Definition members (groups : gmap string (gset string)) (g : string)
  : gset string :=
  default ∅ (groups !! g).

(** The parent group exists and holds the members of every group. *)
Definition parent_holds_all (parent : string)
    (groups : gmap string (gset string)) : Prop :=
  is_Some (groups !! parent) ∧ ∀ g, members groups g ⊆ members groups parent.

(** The two URLs a run can request. *)
Definition projects_url (opts : options) : string :=
  rstrip_slash (url opts) +:+ "/v2/projects".

Definition nodes_url (opts : options) (pid : option string) : string :=
  rstrip_slash (url opts) +:+ "/v2/projects/" +:+ fmt pid +:+ "/nodes".

(** The options with another [url]. *)
Definition with_url (u : string) (opts : options) : options :=
  {| url := u; project_id := project_id opts;
     project_name := project_name opts;
     validate_certs := validate_certs opts; group := group opts;
     host_naming := host_naming opts; port_offset := port_offset opts;
     group_by_node_type := group_by_node_type opts;
     cache_option := cache_option opts; strict := strict opts |}.

(** The candidates of the nodes that have one, in node order. *)
Definition candidates (host_naming : string) (nodes : list node) : list string :=
  omap (λ n, nonempty (candidate host_naming n)) nodes.

(** The identifiers the loop forms over [nodes] when no evaluator call
    stops it, entered with the used-set [seen]. *)
Fixpoint identifiers (host_naming : string) (nodes : list node)
    (seen : gset string) : list string :=
  match nodes with
  | [] => []
  | n :: rest =>
      match nonempty (candidate host_naming n) with
      | None => identifiers host_naming rest seen
      | Some c =>
          dedup seen c n
            :: identifiers host_naming rest (seen ∪ {[ dedup seen c n ]})
      end
  end.

(** The suffixed forms of the nodes that have a candidate, in node order:
    for each the identifier it is given if its candidate is already used,
    [f"{host}_{suffix}"]. *)
Definition suffixed_forms (host_naming : string) (nodes : list node)
  : list string :=
  omap (λ n, c ← nonempty (candidate host_naming n);
             Some (c +:+ "_" +:+ suffix n)) nodes.

(** The evaluator raised at none of the evaluator calls of [evs]. *)
Definition evaluator_returned (env : collaborators) (evs : list inv_event)
  : Prop :=
  ∀ pre h host s post,
    evs = pre ++ constructed h host s :: post →
    evaluator env (pre ++ [constructed h host s]) = None.

(** Every call names only groups created and hosts added by the calls
    before it, [groups] and [hosts] being those known at the start. *)
Fixpoint calls_in_order (groups hosts : gset string) (evs : list inv_event)
  : bool :=
  match evs with
  | [] => true
  | add_group g :: rest => calls_in_order (groups ∪ {[ g ]}) hosts rest
  | add_host h g :: rest =>
      bool_decide (g ∈ groups) && calls_in_order groups (hosts ∪ {[ h ]}) rest
  | set_variable h _ _ :: rest =>
      bool_decide (h ∈ hosts) && calls_in_order groups hosts rest
  | add_child g h :: rest =>
      bool_decide (g ∈ groups) && bool_decide (h ∈ hosts)
        && calls_in_order groups hosts rest
  | constructed _ h _ :: rest =>
      bool_decide (h ∈ hosts) && calls_in_order groups hosts rest
  end.

(** ** A sample controller

    The end-to-end example of the design: a controller at
    [gns3.example.com] with one project, [Lab], of routers. *)

Definition sample_url : string := "http://gns3.example.com:3080".

Definition sample_opts : options :=
  {| url := "http://gns3.example.com:3080/";
     project_id := None; project_name := Some "Lab";
     validate_certs := false; group := "gns3"; host_naming := "name";
     port_offset := Some 1%Z; group_by_node_type := true;
     cache_option := true; strict := false |}.

(** A started router, by name and node id, its console on port 5000 of
    the wildcard address. *)
Definition router (name id : string) : node :=
  {| node_id := Some id; node_name := Some name;
     node_type := Some "router"; status := JStr "started";
     console_type := JStr "telnet"; console_host := Some "0.0.0.0";
     console := JInt 5000 |}.

Definition R1 : node := router "R1" "n1".

(** A node with another console port, another console host. *)
Definition with_console (v : json) (n : node) : node :=
  {| node_id := node_id n; node_name := node_name n;
     node_type := node_type n; status := status n;
     console_type := console_type n; console_host := console_host n;
     console := v |}.

Definition with_console_host (h : option string) (n : node) : node :=
  {| node_id := node_id n; node_name := node_name n;
     node_type := node_type n; status := status n;
     console_type := console_type n; console_host := h;
     console := console n |}.

(** The controller with the given nodes in its project; the evaluator
    never raises. *)
Definition sample_env (nodes : list node) : collaborators :=
  {| urlparse_hostname u :=
       if bool_decide (u = sample_url) then Some "gns3.example.com" else None;
     get_projects u _ :=
       if bool_decide (u = sample_url +:+ "/v2/projects")
       then inr [Project (Some "p1") (Some "Lab")]
       else inl (PyException "HTTP Error 404: Not Found");
     get_nodes u _ :=
       if bool_decide (u = sample_url +:+ "/v2/projects/p1/nodes")
       then inr nodes
       else inl (PyException "HTTP Error 404: Not Found");
     evaluator _ := None |}.

(** The same collaborators with the controller unreachable. *)
Definition unreachable (env : collaborators) : collaborators :=
  {| urlparse_hostname := urlparse_hostname env;
     get_projects _ _ := inl (PyException "timed out");
     get_nodes _ _ := inl (PyException "timed out");
     evaluator := evaluator env |}.

(** The same collaborators with an evaluator that always raises. *)
Definition raising (env : collaborators) : collaborators :=
  {| urlparse_hostname := urlparse_hostname env;
     get_projects := get_projects env;
     get_nodes := get_nodes env;
     evaluator _ := Some (PyException "'gns3_role' is undefined") |}.

(** Nothing requested, nothing cached, an inventory without calls. *)
Definition empty_world : world := World [] ∅ [].

(** * Properties *)

(** ** Python values *)

Lemma nonempty_Some o s : nonempty o = Some s ↔ given o s.
Proof.
  unfold nonempty, given. destruct o as [t|]; [|intuition congruence].
  case_bool_decide; intuition congruence.
Qed.

Lemma nonempty_None o : nonempty o = None ↔ truthy o = false.
Proof. unfold truthy. destruct (nonempty o); naive_solver. Qed.

Lemma truthy_given o : truthy o = true ↔ ∃ s, given o s.
Proof.
  unfold truthy. destruct (nonempty o) as [s|] eqn:E.
  - apply nonempty_Some in E. naive_solver.
  - split; [done|]. intros [s Hs]. apply nonempty_Some in Hs. congruence.
Qed.

(** [rstrip_slash] removes the slashes at the end, all of them and nothing
    else. *)
Lemma rstrip_slash_spec s :
  (∃ k, s = rstrip_slash s +:+ slashes k)
  ∧ ∀ t, rstrip_slash s ≠ t +:+ "/".
Proof.
  induction s as [|c s [[k Hk] Hend]]; simpl.
  { split; [by exists 0|]. by intros [|a t]. }
  destruct (Ascii.eqb c "/") eqn:Hc; simpl.
  - apply Ascii.eqb_eq in Hc as ->. case_bool_decide as Hr.
    + rewrite Hr in Hk. split; [by exists (S k); rewrite Hk|]. by intros [|a t].
    + split; [exists k; by rewrite Hk at 1|].
      intros [|a t]; [by intros [= ?]|]. intros [= _ Ht]. by eapply Hend.
  - apply Ascii.eqb_neq in Hc.
    split; [exists k; by rewrite Hk at 1|].
    intros [|a t]; [by intros [= ? _]|]. intros [= _ Ht]. by eapply Hend.
Qed.

Example rstrip_slash_sample :
  rstrip_slash "http://gns3.example.com:3080//" = "http://gns3.example.com:3080"
  ∧ rstrip_slash "http://gns3/api/" = "http://gns3/api"
  ∧ rstrip_slash "//" = "".
Proof. repeat split; reflexivity. Qed.

Example slice_last_sample :
  slice_last 6 "b7d3-abc123" = "abc123" ∧ slice_last 6 "n1" = "n1".
Proof. split; reflexivity. Qed.

(** ** Project resolution *)

Example message_sample :
  message (project_id_not_found "p2") = "GNS3 inventory: project_id not found: p2"
  ∧ message (http_error "http://gns3/v2/projects" (PyException "timed out"))
    = "GNS3 inventory: HTTP error for http://gns3/v2/projects: timed out".
Proof. split; reflexivity. Qed.

Lemma scan_project_id_found projects pid :
  (∃ p, p ∈ projects ∧ p_project_id p = Some pid) →
  scan_project_id projects pid = inr (Some pid).
Proof.
  induction projects as [|q rest IH]; simpl; intros (p & Hin & Hp).
  - by apply elem_of_nil in Hin.
  - case_bool_decide; [done|]. apply IH.
    apply elem_of_cons in Hin as [->|Hin]; [done|eauto].
Qed.

Lemma scan_project_id_absent projects pid :
  (¬ ∃ p, p ∈ projects ∧ p_project_id p = Some pid) →
  scan_project_id projects pid = inl (project_id_not_found pid).
Proof.
  induction projects as [|q rest IH]; simpl; intros Hno; [done|].
  case_bool_decide as Hq.
  - destruct Hno. exists q. split; [left|done].
  - apply IH. intros (p & Hin & Hp). apply Hno. exists p. split; [by right|done].
Qed.

Lemma filter_no_match nm (l : list project) :
  (∀ p, p ∈ l → p_name p ≠ Some nm) → filter (name_matches nm) l = [].
Proof.
  induction l as [|q l IH]; intros H; [done|].
  rewrite filter_cons_False.
  - apply IH. intros p Hp. apply H. by right.
  - apply H. left.
Qed.

(** C1. Resolution by [project_id] when it is given: the id is returned
    exactly when some project of the list has it, and the failure is
    NotFound otherwise.  Else by [project_name] when it is given: no
    project of that name is NotFound, exactly one returns that project's
    id, two or more is AmbiguousSelector.  With neither given the failure
    is MissingSelector. *)
Theorem find_project_id_resolution
    (projects : list project) (project_id project_name : option string) :
  let r := _find_project_id projects project_id project_name in
  (∀ pid, given project_id pid →
     (r = inr (Some pid) ↔ ∃ p, p ∈ projects ∧ p_project_id p = Some pid) ∧
     ((¬ ∃ p, p ∈ projects ∧ p_project_id p = Some pid) → fails_with r NotFound))
  ∧ (truthy project_id = false → ∀ nm, given project_name nm →
     ((∀ p, p ∈ projects → p_name p ≠ Some nm) → fails_with r NotFound) ∧
     (∀ (l1 l2 : list project) p, projects = l1 ++ p :: l2 → p_name p = Some nm →
        (∀ q, q ∈ l1 ++ l2 → p_name q ≠ Some nm) → r = inr (p_project_id p)) ∧
     (∀ (l1 l2 l3 : list project) p q, projects = l1 ++ p :: l2 ++ q :: l3 →
        p_name p = Some nm → p_name q = Some nm →
        fails_with r AmbiguousSelector))
  ∧ (truthy project_id = false → truthy project_name = false →
     fails_with r MissingSelector).
Proof.
  intros r. subst r. unfold _find_project_id. split; [|split].
  - intros pid Hg. apply nonempty_Some in Hg. rewrite Hg. split; [split|].
    + intros Hr.
      destruct (decide (Exists (λ p, p_project_id p = Some pid) projects))
        as [Hex|Hno]; [by apply Exists_exists in Hex|].
      rewrite Exists_exists in Hno.
      by rewrite (scan_project_id_absent _ _ Hno) in Hr.
    + apply scan_project_id_found.
    + intros Hno. rewrite (scan_project_id_absent _ _ Hno). by eexists.
  - intros Hf nm Hg. apply nonempty_None in Hf. apply nonempty_Some in Hg.
    rewrite Hf, Hg. simpl. split; [|split].
    + intros Hno. rewrite (filter_no_match _ _ Hno). by eexists.
    + intros l1 l2 p -> Hp Hrest.
      rewrite filter_app, filter_cons_True by done.
      rewrite !filter_no_match; [done| |].
      * intros q' Hq'. apply Hrest. apply elem_of_app. by right.
      * intros q' Hq'. apply Hrest. apply elem_of_app. by left.
    + intros l1 l2 l3 p q -> Hp Hq.
      rewrite filter_app, filter_cons_True, filter_app, filter_cons_True by done.
      destruct (filter (name_matches nm) l1) as [|a l1'] eqn:E1; simpl.
      * rewrite bool_decide_true; [by eexists|]. rewrite length_app. simpl. lia.
      * rewrite bool_decide_true; [by eexists|].
        rewrite !length_app. simpl. rewrite length_app. simpl. lia.
  - intros Hf Hg. apply nonempty_None in Hf, Hg. rewrite Hf, Hg. by eexists.
Qed.

(** C1, witness: the sample project list, resolved by id, by name, and
    with no selector. *)
Lemma find_project_id_resolution_witness :
  let projects := [Project (Some "p1") (Some "Lab")] in
  given (Some "p1") "p1"
  ∧ _find_project_id projects (Some "p1") None = inr (Some "p1")
  ∧ fails_with (_find_project_id projects (Some "p2") None) NotFound
  ∧ _find_project_id projects None (Some "Lab") = inr (Some "p1")
  ∧ fails_with (_find_project_id projects None None) MissingSelector.
Proof.
  intros projects.
  assert (given (Some "p1") "p1") as Hp1 by (split; [reflexivity|discriminate]).
  assert (given (Some "p2") "p2") as Hp2 by (split; [reflexivity|discriminate]).
  assert (given (Some "Lab") "Lab") as Hlab by (split; [reflexivity|discriminate]).
  split; [exact Hp1|]. split.
  { apply (proj1 (find_project_id_resolution projects (Some "p1") None) "p1" Hp1).
    exists (Project (Some "p1") (Some "Lab")). split; [left|reflexivity]. }
  split.
  { apply (proj1 (find_project_id_resolution projects (Some "p2") None) "p2" Hp2).
    intros (p & Hin & Hid). apply list_elem_of_singleton in Hin. subst p.
    discriminate Hid. }
  split.
  { destruct (find_project_id_resolution projects None (Some "Lab"))
      as (_ & Hname & _).
    destruct (Hname eq_refl "Lab" Hlab) as (_ & Hone & _).
    apply (Hone [] [] (Project (Some "p1") (Some "Lab")));
      [reflexivity|reflexivity|].
    intros q Hq. by apply elem_of_nil in Hq. }
  apply (proj2 (proj2 (find_project_id_resolution projects None None)));
    reflexivity.
Defined.

(** ** Effects *)

Lemma bind_run {A B} (m : M A) (f : A → M B) w :
  (m ≫= f) w =
    match m w with
    | (w', inr x) => f x w'
    | (w', inl e) => (w', inl e)
    end.
Proof. reflexivity. Qed.

Lemma emit_run e w :
  emit e w = (World (requests w) (_cache w) (inventory w ++ [e]), inr ()).
Proof. reflexivity. Qed.

Lemma emit_all_run es w :
  emit_all es w = (World (requests w) (_cache w) (inventory w ++ es), inr ()).
Proof.
  revert w. induction es as [|e es IH]; intros [rq c inv]; simpl.
  - by rewrite app_nil_r.
  - rewrite bind_run, emit_run, IH. simpl. by rewrite <- app_assoc.
Qed.

Lemma call_hook_run env h host strict w :
  call_hook env h host strict w =
    let w' := World (requests w) (_cache w)
                (inventory w ++ [constructed h host strict]) in
    (w', match evaluator env (inventory w') with
         | Some e => inl (evaluation_error e)
         | None => inr ()
         end).
Proof. unfold call_hook. simpl. by destruct (evaluator env _). Qed.

Ltac step_run :=
  rewrite bind_run;
  rewrite ?emit_run, ?emit_all_run, ?call_hook_run;
  cbv beta iota zeta; cbn [requests _cache inventory].

Ltac trace_eq :=
  rewrite <- ?app_assoc, <- ?app_comm_cons, <- ?app_assoc;
  reflexivity.

(** ** One iteration of the loop *)

Section Iteration.
Variable env : collaborators.
Variables (opts : options) (pid : option string) (controller_host : string).

Lemma process_node_skip n seen w :
  nonempty (candidate (host_naming opts) n) = None →
  process_node env opts pid controller_host n seen w = (w, inr seen).
Proof. intros H. unfold process_node. by rewrite H. Qed.

Lemma process_node_mapped n seen w c :
  nonempty (candidate (host_naming opts) n) = Some c →
  let host := dedup seen c n in
  ∃ hooks r,
    process_node env opts pid controller_host n seen w =
      (World (requests w) (_cache w)
         (inventory w ++ mapped_events opts pid controller_host host n ++ hooks), r)
    ∧ hooks `prefix_of` hook_events host (strict opts)
    ∧ ((r = inr (seen ∪ {[ host ]}) ∧ hooks = hook_events host (strict opts))
       ∨ ∃ e, r = inl (evaluation_error e)).
Proof.
  intros H host. unfold process_node. rewrite H. fold host.
  unfold mapped_events, hook_events.
  do 3 step_run.
  step_run. destruct (evaluator env _) as [e1|].
  { exists [constructed _set_composite_vars host (strict opts)], (inl (evaluation_error e1)).
    split; [trace_eq|]. split; [by eexists|right; eauto]. }
  step_run. destruct (evaluator env _) as [e2|].
  { exists [constructed _set_composite_vars host (strict opts);
            constructed _add_host_to_composed_groups host (strict opts)],
           (inl (evaluation_error e2)).
    split; [trace_eq|]. split; [by eexists|right; eauto]. }
  step_run. destruct (evaluator env _) as [e3|].
  { eexists _, (inl (evaluation_error e3)).
    split; [trace_eq|]. split; [done|right; eauto]. }
  eexists _, _. split; [trace_eq|]. split; [done|left; done].
Qed.
End Iteration.

(** ** The variables of a mapped host *)

Lemma omap_assigns_hooks host key hooks host' strict :
  hooks `prefix_of` hook_events host' strict →
  omap (assigns host key) hooks = [].
Proof.
  intros [k Hk]. apply (f_equal (omap (assigns host key))) in Hk.
  rewrite omap_app in Hk. simpl in Hk. symmetry in Hk.
  by apply app_eq_nil in Hk as [? _].
Qed.

Lemma omap_assigns_type_group host key flag host' n :
  omap (assigns host key) (type_group flag host' n) = [].
Proof. unfold type_group. by destruct (flag && truthy (node_type n)). Qed.

Lemma hostvar_mapped opts pid ch host key host' n hooks :
  hooks `prefix_of` hook_events host' (strict opts) →
  hostvar host key (mapped_events opts pid ch host' n ++ hooks)
  = hostvar host key (host_vars pid ch (default 0%Z (port_offset opts)) host' n).
Proof.
  intros Hp. unfold hostvar, mapped_events.
  rewrite omap_app, (omap_assigns_hooks _ _ _ _ _ Hp), app_nil_r.
  change (add_host host' (group opts) :: ?l) with ([add_host host' (group opts)] ++ l).
  by rewrite !omap_app, omap_assigns_type_group, app_nil_r.
Qed.

Lemma assigns_same host key v :
  assigns host key (set_variable host key v) = Some v.
Proof. simpl. by rewrite bool_decide_true. Qed.

Lemma assigns_other_key host key h k v :
  k ≠ key → assigns host key (set_variable h k v) = None.
Proof. intros Hk. simpl. rewrite bool_decide_false; [done|]. by intros [_ ?]. Qed.

Lemma omap_assigns_same host key v l :
  omap (assigns host key) (set_variable host key v :: l)
  = v :: omap (assigns host key) l.
Proof. cbn [omap list_omap]. by rewrite assigns_same. Qed.

Lemma omap_assigns_other_key host key h k v l :
  k ≠ key →
  omap (assigns host key) (set_variable h k v :: l) = omap (assigns host key) l.
Proof. intros Hk. cbn [omap list_omap]. by rewrite assigns_other_key. Qed.

Ltac eval_hostvar :=
  unfold hostvar, host_vars;
  match goal with |- context [isinstance_int ?v] => destruct (isinstance_int v) end;
  cbn [app];
  repeat first
    [ rewrite omap_assigns_other_key by discriminate
    | rewrite omap_assigns_same ];
  reflexivity.

Lemma host_vars_standard pid ch off host n :
  let vars := host_vars pid ch off host n in
  hostvar host "gns3_project_id" vars = Some (of_str pid)
  ∧ hostvar host "gns3_node_id" vars = Some (of_str (node_id n))
  ∧ hostvar host "gns3_node_name" vars = Some (of_str (node_name n))
  ∧ hostvar host "gns3_node_type" vars = Some (of_str (node_type n))
  ∧ hostvar host "gns3_status" vars = Some (status n)
  ∧ hostvar host "gns3_console_type" vars = Some (console_type n)
  ∧ hostvar host "gns3_console_host" vars = Some (of_str (console_host n))
  ∧ hostvar host "gns3_console_port" vars = Some (console n).
Proof. repeat split; eval_hostvar. Qed.

Lemma host_vars_ansible_host pid ch off host n :
  hostvar host "ansible_host" (host_vars pid ch off host n)
  = Some (JStr (connection_host ch n)).
Proof. eval_hostvar. Qed.

Lemma host_vars_ansible_port pid ch off host n :
  hostvar host "ansible_port" (host_vars pid ch off host n)
  = (λ port, JInt (port + off)) <$> isinstance_int (console n).
Proof. eval_hostvar. Qed.

Example sample_run :
  parse (sample_env [R1]) sample_opts "gns3.yml" true empty_world =
    ({| requests := [ "http://gns3.example.com:3080/v2/projects";
                      "http://gns3.example.com:3080/v2/projects/p1/nodes" ];
        _cache := {[ "gns3.yml" := Source (Some "p1") [R1] ]};
        inventory :=
          [ add_group "gns3";
            add_host "R1" "gns3";
            set_variable "R1" "gns3_project_id" (JStr "p1");
            set_variable "R1" "gns3_node_id" (JStr "n1");
            set_variable "R1" "gns3_node_name" (JStr "R1");
            set_variable "R1" "gns3_node_type" (JStr "router");
            set_variable "R1" "gns3_status" (JStr "started");
            set_variable "R1" "gns3_console_type" (JStr "telnet");
            set_variable "R1" "gns3_console_host" (JStr "0.0.0.0");
            set_variable "R1" "gns3_console_port" (JInt 5000);
            set_variable "R1" "ansible_host" (JStr "gns3.example.com");
            set_variable "R1" "ansible_port" (JInt 5001);
            add_group "gns3_type_router";
            add_child "gns3_type_router" "R1";
            constructed _set_composite_vars "R1" false;
            constructed _add_host_to_composed_groups "R1" false;
            constructed _add_host_to_keyed_groups "R1" false ] |},
     inr ()).
Proof. vm_compute. reflexivity. Qed.

(** ** Naming *)

Lemma py_or_true a b : truthy a = true → py_or a b = a.
Proof. unfold py_or. by intros ->. Qed.

Lemma py_or_false a b : truthy a = false → py_or a b = b.
Proof. unfold py_or. by intros ->. Qed.

Lemma given_truthy o s : given o s → truthy o = true.
Proof. intros H. apply truthy_given. eauto. Qed.

(** C7. The candidate identifier is the field the naming policy selects,
    or the other identifier field when the selected one is empty; a node
    whose name and node_id are both empty is skipped: the iteration leaves
    the inventory, hence hosts and variables, as they were and raises
    nothing. *)
Theorem candidate_fallback_and_skip
    (env : collaborators) (opts : options) (pid : option string)
    (controller_host : string) (n : node) (seen : gset string) (w : world) :
  let identifier := nonempty (candidate (host_naming opts) n) in
  (host_naming opts = "name" →
     (∀ s, given (node_name n) s → identifier = Some s)
     ∧ (truthy (node_name n) = false → identifier = nonempty (node_id n)))
  ∧ (host_naming opts = "node_id" →
     (∀ s, given (node_id n) s → identifier = Some s)
     ∧ (truthy (node_id n) = false → identifier = nonempty (node_name n)))
  ∧ (truthy (node_name n) = false → truthy (node_id n) = false →
     identifier = None
     ∧ process_node env opts pid controller_host n seen w = (w, inr seen)).
Proof.
  intros identifier. subst identifier. unfold candidate. split; [|split].
  - intros ->. rewrite bool_decide_true by done. split.
    + intros s Hs. pose proof (given_truthy _ _ Hs) as Ht.
      rewrite (py_or_true (node_name n)) by done. rewrite py_or_true by done.
      by apply nonempty_Some.
    + intros Hf. rewrite (py_or_false (node_name n)) by done.
      by rewrite py_or_false.
  - intros ->. rewrite bool_decide_false by done. split.
    + intros s Hs. pose proof (given_truthy _ _ Hs) as Ht.
      rewrite (py_or_true (node_id n)) by done. rewrite py_or_true by done.
      by apply nonempty_Some.
    + intros Hf. rewrite (py_or_false (node_id n)) by done.
      destruct (truthy (node_name n)) eqn:Hn.
      * by rewrite py_or_true.
      * rewrite py_or_false by done.
        apply nonempty_None in Hf, Hn. congruence.
  - intros Hn Hi.
    assert (nonempty (candidate (host_naming opts) n) = None) as Hc.
    { unfold candidate. apply nonempty_None.
      destruct (bool_decide (host_naming opts = "name")).
      - rewrite (py_or_false (node_name n)) by done. by rewrite !py_or_false.
      - rewrite (py_or_false (node_id n)) by done. by rewrite !py_or_false. }
    split; [done|]. by apply process_node_skip.
Qed.

(** C7, witness: a node without a name falls back to its node id under the
    [name] policy; a node with neither is skipped. *)
Lemma candidate_fallback_and_skip_witness :
  let unnamed :=
    {| node_id := Some "n7"; node_name := None; node_type := None;
       status := JNull; console_type := JNull; console_host := None;
       console := JNull |} in
  let blank :=
    {| node_id := Some ""; node_name := None; node_type := None;
       status := JNull; console_type := JNull; console_host := None;
       console := JNull |} in
  nonempty (candidate (host_naming sample_opts) unnamed) = Some "n7"
  ∧ process_node (sample_env [blank]) sample_opts (Some "p1")
      "gns3.example.com" blank ∅ empty_world = (empty_world, inr ∅).
Proof.
  intros unnamed blank. split.
  - apply (proj2 (proj1 (candidate_fallback_and_skip (sample_env [unnamed])
             sample_opts (Some "p1") "gns3.example.com" unnamed ∅ empty_world)
             eq_refl) eq_refl).
  - apply (proj2 (proj2 (candidate_fallback_and_skip (sample_env [blank])
             sample_opts (Some "p1") "gns3.example.com" blank ∅ empty_world))
             eq_refl eq_refl).
Defined.

(** ** Connection variables *)

Lemma process_node_new_events env opts pid ch n seen w c :
  nonempty (candidate (host_naming opts) n) = Some c →
  ∃ hooks,
    new_events w (process_node env opts pid ch n seen w).1
    = mapped_events opts pid ch (dedup seen c n) n ++ hooks
    ∧ hooks `prefix_of` hook_events (dedup seen c n) (strict opts).
Proof.
  intros Hc.
  destruct (process_node_mapped env opts pid ch n seen w c Hc)
    as (hooks & r & -> & Hp & _).
  exists hooks. split; [|done]. unfold new_events. simpl.
  by rewrite drop_app_length.
Qed.

Lemma hostvar_process_node env opts pid ch n seen w c key :
  nonempty (candidate (host_naming opts) n) = Some c →
  hostvar (dedup seen c n) key
    (new_events w (process_node env opts pid ch n seen w).1)
  = hostvar (dedup seen c n) key
      (host_vars pid ch (default 0%Z (port_offset opts)) (dedup seen c n) n).
Proof.
  intros Hc.
  destruct (process_node_new_events env opts pid ch n seen w c Hc)
    as (hooks & -> & Hp).
  by apply hostvar_mapped.
Qed.

(** C4, as the code has it.  The calls that map a node set [ansible_port]
    on its host exactly when the raw console field passes the integer
    test, which an integer and also a boolean (counting as 1 or 0) pass,
    and then to that number plus the configured offset; for any other
    console value they do not set [ansible_port], while they set
    [ansible_host] and the eight standard variables all the same. *)
Theorem ansible_port_of_mapped_host
    (env : collaborators) (opts : options) (pid : option string)
    (controller_host : string) (n : node) (seen : gset string) (w : world)
    (c : string) :
  nonempty (candidate (host_naming opts) n) = Some c →
  let host := dedup seen c n in
  let vars :=
    new_events w (process_node env opts pid controller_host n seen w).1 in
  let offset := default 0%Z (port_offset opts) in
  (∀ z, console n = JInt z →
     hostvar host "ansible_port" vars = Some (JInt (z + offset)))
  ∧ (∀ b, console n = JBool b →
     hostvar host "ansible_port" vars
     = Some (JInt ((if b then 1 else 0) + offset)))
  ∧ ((∀ z, console n ≠ JInt z) → (∀ b, console n ≠ JBool b) →
     hostvar host "ansible_port" vars = None)
  ∧ hostvar host "ansible_host" vars
    = Some (JStr (connection_host controller_host n))
  ∧ hostvar host "gns3_project_id" vars = Some (of_str pid)
  ∧ hostvar host "gns3_node_id" vars = Some (of_str (node_id n))
  ∧ hostvar host "gns3_node_name" vars = Some (of_str (node_name n))
  ∧ hostvar host "gns3_node_type" vars = Some (of_str (node_type n))
  ∧ hostvar host "gns3_status" vars = Some (status n)
  ∧ hostvar host "gns3_console_type" vars = Some (console_type n)
  ∧ hostvar host "gns3_console_host" vars = Some (of_str (console_host n))
  ∧ hostvar host "gns3_console_port" vars = Some (console n).
Proof.
  intros Hc host vars offset. subst host vars offset.
  rewrite !(hostvar_process_node _ _ _ _ _ _ _ _ _ Hc).
  rewrite host_vars_ansible_port, host_vars_ansible_host.
  split; [by intros z ->|]. split; [by intros b ->|].
  split; [|split; [done|apply host_vars_standard]].
  intros Hz Hb. destruct (console n); try done.
  - by destruct (Hb b).
  - by destruct (Hz z).
Qed.

(** C4, witness: console 5000 with offset 1 gives 5001. *)
Lemma ansible_port_of_mapped_host_witness :
  nonempty (candidate (host_naming sample_opts) R1) = Some "R1"
  ∧ hostvar "R1" "ansible_port"
      (new_events empty_world
         (process_node (sample_env [R1]) sample_opts (Some "p1")
            "gns3.example.com" R1 ∅ empty_world).1)
    = Some (JInt 5001).
Proof.
  split; [reflexivity|].
  refine (proj1 (ansible_port_of_mapped_host (sample_env [R1]) sample_opts
            (Some "p1") "gns3.example.com" R1 ∅ empty_world "R1" _) 5000%Z _);
    reflexivity.
Defined.

(** C4, counterexample: a console field that is the boolean [true], not an
    integer, still yields [ansible_port] (2 with offset 1). *)
Lemma ansible_port_for_boolean_console :
  let n := with_console (JBool true) R1 in
  let vars :=
    new_events empty_world
      (process_node (sample_env [n]) sample_opts (Some "p1")
         "gns3.example.com" n ∅ empty_world).1 in
  hostvar "R1" "ansible_port" vars = Some (JInt 2)
  ∧ ¬ (is_Some (hostvar "R1" "ansible_port" vars) ↔ is_integer (console n)).
Proof.
  split; [by vm_compute|].
  intros [H _]. destruct H as [z Hz]; [|discriminate Hz].
  vm_compute. eauto.
Qed.

(** The variables are those the mapping of one node sets.  In the
    inventory a host keeps what an earlier node of the same final
    identifier set: here the third router has no console port, and its host
    has the [ansible_port] of the second. *)
Example ansible_port_kept_by_shared_identifier :
  let quiet := with_console JNull (router "R1" "90d4-c0ffee") in
  let nodes := [ router "R1" "b3a1-000001"; router "R1" "77f2-c0ffee"; quiet ] in
  let run := parse (sample_env nodes) sample_opts "gns3.yml" true empty_world in
  added_hosts (inventory run.1) = [ "R1"; "R1_c0ffee"; "R1_c0ffee" ]
  ∧ console quiet = JNull
  ∧ hostvar "R1_c0ffee" "ansible_port" (inventory run.1) = Some (JInt 5001).
Proof. intros quiet nodes run. repeat split; by vm_compute. Qed.

Lemma connection_host_passes ch n h :
  given (console_host n) h → h ≠ "0.0.0.0" → h ≠ "::" →
  connection_host ch n = h.
Proof.
  intros Hg H0 H1. unfold connection_host.
  apply nonempty_Some in Hg. rewrite Hg.
  by rewrite !bool_decide_false.
Qed.

Lemma connection_host_replaced ch n :
  truthy (console_host n) = false ∨ console_host n = Some "0.0.0.0"
    ∨ console_host n = Some "::" →
  connection_host ch n = ch.
Proof.
  unfold connection_host. intros [Hf|[->| ->]]; [|done..].
  apply nonempty_None in Hf. rewrite Hf.
  by destruct (bool_decide (ch = "0.0.0.0") || bool_decide (ch = "::")).
Qed.

(** C5, as the code has it.  The calls that map a node set [ansible_host]
    on its host to the raw [console_host] when that field is present, not
    empty and not one of the wildcards [0.0.0.0] and [::], and to the
    controller host when the field is absent, empty or a wildcard.  The
    controller host is the hostname parsed from the base URL (the
    configured URL without its trailing slashes), or that base URL itself
    when no hostname comes out of the parse. *)
Theorem ansible_host_of_mapped_host
    (env : collaborators) (opts : options) (pid : option string)
    (n : node) (seen : gset string) (w : world) (c : string) :
  nonempty (candidate (host_naming opts) n) = Some c →
  let base_url := rstrip_slash (url opts) in
  let controller_host := _controller_host_from_url env base_url in
  let host := dedup seen c n in
  let vars :=
    new_events w (process_node env opts pid controller_host n seen w).1 in
  (∀ h, given (console_host n) h → h ≠ "0.0.0.0" → h ≠ "::" →
     hostvar host "ansible_host" vars = Some (JStr h))
  ∧ (truthy (console_host n) = false ∨ console_host n = Some "0.0.0.0"
       ∨ console_host n = Some "::" →
     hostvar host "ansible_host" vars = Some (JStr controller_host))
  ∧ (∀ hostname, given (urlparse_hostname env base_url) hostname →
     controller_host = hostname)
  ∧ (truthy (urlparse_hostname env base_url) = false →
     controller_host = base_url).
Proof.
  intros Hc base_url controller_host host vars. subst host vars.
  rewrite (hostvar_process_node _ _ _ _ _ _ _ _ _ Hc), host_vars_ansible_host.
  split; [|split; [|split]].
  - intros h Hg H0 H1. by rewrite (connection_host_passes _ _ h).
  - intros H. by rewrite connection_host_replaced.
  - intros hostname Hg. subst controller_host. unfold _controller_host_from_url.
    apply nonempty_Some in Hg. by rewrite Hg.
  - intros Hf. subst controller_host. unfold _controller_host_from_url.
    apply nonempty_None in Hf. by rewrite Hf.
Qed.

(** C5, witness: the wildcard [0.0.0.0] of [R1] is replaced by the
    hostname of the sample URL. *)
Lemma ansible_host_of_mapped_host_witness :
  nonempty (candidate (host_naming sample_opts) R1) = Some "R1"
  ∧ hostvar "R1" "ansible_host"
      (new_events empty_world
         (process_node (sample_env [R1]) sample_opts (Some "p1")
            (_controller_host_from_url (sample_env [R1])
               (rstrip_slash (url sample_opts)))
            R1 ∅ empty_world).1)
    = Some (JStr "gns3.example.com").
Proof.
  split; [reflexivity|].
  refine (proj1 (proj2 (ansible_host_of_mapped_host (sample_env [R1])
            sample_opts (Some "p1") R1 ∅ empty_world "R1" _)) _);
    [reflexivity|].
  right. left. reflexivity.
Defined.

(** C5, counterexample: a [console_host] that is present, the empty string,
    and no wildcard, does not pass through: [ansible_host] is the
    controller host. *)
Lemma ansible_host_for_empty_console_host :
  let n := with_console_host (Some "") R1 in
  let vars :=
    new_events empty_world
      (process_node (sample_env [n]) sample_opts (Some "p1")
         "gns3.example.com" n ∅ empty_world).1 in
  hostvar "R1" "ansible_host" vars = Some (JStr "gns3.example.com")
  ∧ ¬ (∀ h, console_host n = Some h → h ≠ "0.0.0.0" → h ≠ "::" →
         hostvar "R1" "ansible_host" vars = Some (JStr h)).
Proof.
  intros n vars. split; [by vm_compute|].
  intros H.
  assert (hostvar "R1" "ansible_host" vars = Some (JStr "")) as H'
    by (by apply H).
  vm_compute in H'. discriminate H'.
Qed.

(** ** The loop and the used-set *)

Lemma added_hosts_app evs1 evs2 :
  added_hosts (evs1 ++ evs2) = added_hosts evs1 ++ added_hosts evs2.
Proof. apply omap_app. Qed.

Lemma added_hosts_hooks hooks host strict :
  hooks `prefix_of` hook_events host strict → added_hosts hooks = [].
Proof.
  intros [k Hk]. apply (f_equal added_hosts) in Hk.
  rewrite added_hosts_app in Hk. simpl in Hk. symmetry in Hk.
  by apply app_eq_nil in Hk as [? _].
Qed.

Lemma added_hosts_mapped opts pid ch host n :
  added_hosts (mapped_events opts pid ch host n) = [host].
Proof.
  unfold mapped_events, type_group, host_vars.
  destruct (isinstance_int (console n)),
    (group_by_node_type opts && truthy (node_type n)); reflexivity.
Qed.

Section Loop.
Variable env : collaborators.
Variables (opts : options) (pid : option string) (controller_host : string).

(** What an iteration does, by cases. *)
Lemma process_node_cases n seen w :
  match nonempty (candidate (host_naming opts) n) with
  | None => process_node env opts pid controller_host n seen w = (w, inr seen)
  | Some c =>
      ∃ hooks r,
        process_node env opts pid controller_host n seen w =
          (World (requests w) (_cache w)
             (inventory w
                ++ mapped_events opts pid controller_host (dedup seen c n) n
                ++ hooks), r)
        ∧ hooks `prefix_of` hook_events (dedup seen c n) (strict opts)
        ∧ ((r = inr (seen ∪ {[ dedup seen c n ]})
            ∧ hooks = hook_events (dedup seen c n) (strict opts))
           ∨ ∃ e, r = inl (evaluation_error e))
  end.
Proof.
  destruct (nonempty (candidate (host_naming opts) n)) as [c|] eqn:Hc.
  - by apply process_node_mapped.
  - by apply process_node_skip.
Qed.

Lemma process_node_hosts n seen w c :
  nonempty (candidate (host_naming opts) n) = Some c →
  added_hosts (new_events w (process_node env opts pid controller_host n seen w).1)
  = [dedup seen c n].
Proof.
  intros Hc.
  destruct (process_node_new_events env opts pid controller_host n seen w c Hc)
    as (hooks & -> & Hp).
  by rewrite added_hosts_app, added_hosts_mapped, (added_hosts_hooks _ _ _ Hp).
Qed.

Lemma process_node_seen n seen w w' seen' :
  process_node env opts pid controller_host n seen w = (w', inr seen') →
  match nonempty (candidate (host_naming opts) n) with
  | None => seen' = seen
  | Some c => seen' = seen ∪ {[ dedup seen c n ]}
  end.
Proof.
  intros Hrun. pose proof (process_node_cases n seen w) as Hcases.
  destruct (nonempty (candidate (host_naming opts) n)) as [c|].
  - destruct Hcases as (hooks & r & Heq & _ & [[-> _]|[e ->]]);
      rewrite Hrun in Heq; congruence.
  - rewrite Hrun in Hcases. congruence.
Qed.

Lemma for_nodes_cons n rest seen w :
  for_nodes env opts pid controller_host (n :: rest) seen w =
    match process_node env opts pid controller_host n seen w with
    | (w', inr seen') => for_nodes env opts pid controller_host rest seen' w'
    | (w', inl e) => (w', inl e)
    end.
Proof. reflexivity. Qed.

(** A loop over [nodes1 ++ nodes2] is the loop over [nodes1], then, unless
    it failed, the loop over [nodes2] from where it ended. *)
Lemma for_nodes_app nodes1 nodes2 seen w :
  for_nodes env opts pid controller_host (nodes1 ++ nodes2) seen w =
    match for_nodes env opts pid controller_host nodes1 seen w with
    | (w', inr seen') => for_nodes env opts pid controller_host nodes2 seen' w'
    | (w', inl e) => (w', inl e)
    end.
Proof.
  revert seen w. induction nodes1 as [|n rest IH]; intros seen w; [done|].
  rewrite <- app_comm_cons, !for_nodes_cons.
  destruct (process_node env opts pid controller_host n seen w)
    as [w1 [e|seen1]]; [done|apply IH].
Qed.

Lemma for_nodes_seen_mono nodes seen w w' seen' :
  for_nodes env opts pid controller_host nodes seen w = (w', inr seen') →
  seen ⊆ seen'.
Proof.
  revert seen w. induction nodes as [|n rest IH]; intros seen w Hrun.
  - simpl in Hrun. unfold mret, M_ret in Hrun. by simplify_eq.
  - rewrite for_nodes_cons in Hrun.
    destruct (process_node env opts pid controller_host n seen w)
      as [w1 [e|seen1]] eqn:Hn; [done|].
    apply IH in Hrun. apply process_node_seen in Hn.
    destruct (nonempty (candidate (host_naming opts) n)); set_solver.
Qed.

(** The loop touches neither the controller nor the cache. *)
Lemma process_node_frame n seen w :
  let w' := (process_node env opts pid controller_host n seen w).1 in
  requests w' = requests w ∧ _cache w' = _cache w
  ∧ inventory w `prefix_of` inventory w'.
Proof.
  pose proof (process_node_cases n seen w) as Hcases.
  destruct (nonempty (candidate (host_naming opts) n)) as [c|].
  - destruct Hcases as (hooks & r & -> & _). simpl.
    split; [done|]. split; [done|]. by eexists.
  - rewrite Hcases. done.
Qed.

Lemma for_nodes_frame nodes seen w :
  let w' := (for_nodes env opts pid controller_host nodes seen w).1 in
  requests w' = requests w ∧ _cache w' = _cache w
  ∧ inventory w `prefix_of` inventory w'.
Proof.
  revert seen w. induction nodes as [|n rest IH]; intros seen w; [done|].
  rewrite for_nodes_cons.
  pose proof (process_node_frame n seen w) as (Hr & Hc & Hi).
  destruct (process_node env opts pid controller_host n seen w)
    as [w1 [e|seen1]]; [done|].
  simpl in Hr, Hc, Hi.
  destruct (IH seen1 w1) as (Hr' & Hc' & Hi').
  split; [congruence|]. split; [congruence|]. by etrans.
Qed.
End Loop.

(** ** A whole run *)

Lemma parse_run env opts cache_key cache w :
  parse env opts cache_key cache w =
    match fetch env opts cache_key (cache && cache_option opts) w with
    | (w1, inl e) => (w1, inl e)
    | (w1, inr source) =>
        let w2 := World (requests w1) (_cache w1)
                    (inventory w1 ++ [add_group (group opts)]) in
        match for_nodes env opts (source_project_id source)
                (_controller_host_from_url env (rstrip_slash (url opts)))
                (source_nodes source) ∅ w2 with
        | (w3, inl e) => (w3, inl e)
        | (w3, inr _) => (w3, inr ())
        end
    end.
Proof.
  unfold parse. rewrite bind_run.
  destruct (fetch env opts cache_key _ w) as [w1 [e|source]]; [done|].
  do 2 step_run.
  by destruct (for_nodes _ _ _ _ _ _ _) as [w3 [e|seen]].
Qed.

(** The fetch stage, by cases. *)
Lemma fetch_cached env opts cache_key w payload :
  _cache w !! cache_key = Some payload →
  fetch env opts cache_key true w = (w, inr payload).
Proof.
  intros Hc. unfold fetch. rewrite bind_run. unfold cache_get. by rewrite Hc.
Qed.

Lemma fetch_remote env opts cache_key use_cache w :
  use_cache = false ∨ _cache w !! cache_key = None →
  fetch env opts cache_key use_cache w =
    let base_url := rstrip_slash (url opts) in
    let projects_url := base_url +:+ "/v2/projects" in
    let asked urls := World (requests w ++ urls) (_cache w) (inventory w) in
    match get_projects env projects_url (validate_certs opts) with
    | inl cause =>
        (asked [projects_url], inl (raised (http_error projects_url cause)))
    | inr projects =>
        match _find_project_id projects (project_id opts) (project_name opts) with
        | inl e => (asked [projects_url], inl (raised e))
        | inr pid =>
            let nodes_url :=
              base_url +:+ "/v2/projects/" +:+ fmt pid +:+ "/nodes" in
            match get_nodes env nodes_url (validate_certs opts) with
            | inl cause =>
                (asked [projects_url; nodes_url],
                 inl (raised (http_error nodes_url cause)))
            | inr nodes =>
                (World (requests w ++ [projects_url; nodes_url])
                   (if use_cache
                    then <[cache_key := Source pid nodes]> (_cache w)
                    else _cache w)
                   (inventory w),
                 inr (Source pid nodes))
            end
        end
    end.
Proof.
  intros Hmiss. unfold fetch. rewrite bind_run.
  assert ((if use_cache then cache_get cache_key else mret None) w
          = (w, inr None)) as ->.
  { destruct use_cache; [|done]. destruct Hmiss as [?|Hnone]; [done|].
    unfold cache_get. by rewrite Hnone. }
  cbv beta iota zeta. rewrite bind_run. unfold _http_get_json at 1.
  cbn [requests _cache inventory].
  destruct (get_projects env _ _) as [cause|projects]; [done|].
  rewrite bind_run. unfold lift.
  destruct (_find_project_id projects _ _) as [e|pid]; [done|].
  rewrite bind_run. unfold _http_get_json. cbn [requests _cache inventory].
  destruct (get_nodes env _ _) as [cause|nodes];
    rewrite <- app_assoc; [done|].
  rewrite bind_run. by destruct use_cache.
Qed.

Lemma fetch_frame env opts cache_key use_cache w :
  inventory (fetch env opts cache_key use_cache w).1 = inventory w.
Proof.
  destruct use_cache.
  - destruct (_cache w !! cache_key) as [payload|] eqn:Hc.
    + by rewrite (fetch_cached _ _ _ _ _ Hc).
    + rewrite fetch_remote by (by right). cbv zeta.
      repeat case_match; done.
  - rewrite fetch_remote by (by left). cbv zeta.
    repeat case_match; done.
Qed.

(** C3, counterexample: three routers named [R1], the last two with node
    ids ending alike; the run adds the identifier [R1_c0ffee] twice. *)
Lemma host_identifiers_not_distinct :
  let nodes := [ router "R1" "b3a1-000001"; router "R1" "77f2-c0ffee";
                 router "R1" "90d4-c0ffee" ] in
  let hosts :=
    added_hosts (inventory
      (parse (sample_env nodes) sample_opts "gns3.yml" true empty_world).1) in
  hosts = [ "R1"; "R1_c0ffee"; "R1_c0ffee" ] ∧ ¬ NoDup hosts.
Proof.
  intros nodes hosts.
  assert (hosts = [ "R1"; "R1_c0ffee"; "R1_c0ffee" ]) as -> by (by vm_compute).
  split; [done|].
  intros [_ [Hnot _]%NoDup_cons]%NoDup_cons. apply Hnot. left.
Qed.

(** ** Deduplication *)

Lemma length_append s1 s2 :
  String.length (s1 +:+ s2) = String.length s1 + String.length s2.
Proof.
  induction s1 as [|a s1 IH]; [done|].
  change (S (String.length (s1 +:+ s2)) = S (String.length s1 + String.length s2)).
  by rewrite IH.
Qed.

Lemma string_drop_spec n s :
  ∃ front, s = front +:+ string_drop n s
           ∧ String.length front = Nat.min n (String.length s).
Proof.
  revert s. induction n as [|n IH]; intros s.
  - by exists "".
  - destruct s as [|a s]; [by exists ""|].
    destruct (IH s) as (front & Hs & Hlen).
    exists (String a front). split.
    + change (String a s = String a (front +:+ string_drop n s)).
      by rewrite <- Hs.
    + simpl. by rewrite Hlen.
Qed.

(** [slice_last k s] is the end of [s], of [k] characters or of all of
    [s] when it has fewer. *)
Lemma slice_last_spec k s :
  ∃ front, s = front +:+ slice_last k s
           ∧ String.length (slice_last k s) = Nat.min k (String.length s).
Proof.
  unfold slice_last.
  destruct (string_drop_spec (String.length s - k) s) as (front & Hs & Hlen).
  exists front. split; [done|].
  apply (f_equal String.length) in Hs. rewrite length_append in Hs. lia.
Qed.

Lemma suffix_given n i : given (node_id n) i → suffix n = slice_last 6 i.
Proof.
  intros Hg. unfold suffix, or_empty. rewrite (given_truthy _ _ Hg).
  apply nonempty_Some in Hg. by rewrite Hg.
Qed.

Lemma suffix_dup n : truthy (node_id n) = false → suffix n = "dup".
Proof. unfold suffix. by intros ->. Qed.

(** C2, as the code has it.  Of two nodes of a run that resolve to the
    same candidate, the first keeps the unsuffixed identifier provided the
    candidate is not yet in the used-set when that node is processed; the
    second gets the candidate followed by an underscore and the last 6
    characters of its node_id, or [dup] when its node_id is absent or
    empty; each final identifier is recorded in the used-set. *)
Theorem second_of_two_nodes_is_suffixed
    (env : collaborators) (opts : options) (pid : option string)
    (controller_host : string) (before between : list node) (n1 n2 : node)
    (c : string) (seen0 seen1 seen2 seen3 : gset string)
    (w0 w1 w2 w3 : world) :
  nonempty (candidate (host_naming opts) n1) = Some c →
  nonempty (candidate (host_naming opts) n2) = Some c →
  for_nodes env opts pid controller_host before seen0 w0 = (w1, inr seen1) →
  process_node env opts pid controller_host n1 seen1 w1 = (w2, inr seen2) →
  for_nodes env opts pid controller_host between seen2 w2 = (w3, inr seen3) →
  let first := added_hosts (new_events w1 w2) in
  let res := process_node env opts pid controller_host n2 seen3 w3 in
  let second := added_hosts (new_events w3 res.1) in
  (c ∉ seen1 → first = [c])
  ∧ (∀ h, first = [h] → h ∈ seen2)
  ∧ (∀ i, given (node_id n2) i → second = [c +:+ "_" +:+ slice_last 6 i])
  ∧ (truthy (node_id n2) = false → second = [c +:+ "_" +:+ "dup"])
  ∧ (∀ h seen4, second = [h] → res.2 = inr seen4 → h ∈ seen4)
  ∧ (∀ i, ∃ front, i = front +:+ slice_last 6 i
          ∧ String.length (slice_last 6 i) = Nat.min 6 (String.length i)).
Proof.
  intros Hc1 Hc2 Hbefore Hn1 Hbetween first res second.
  assert (first = [dedup seen1 c n1]) as Hfirst.
  { subst first. replace w2 with
      (process_node env opts pid controller_host n1 seen1 w1).1
      by (by rewrite Hn1).
    by apply process_node_hosts. }
  assert (second = [dedup seen3 c n2]) as Hsecond
    by (by apply process_node_hosts).
  pose proof (process_node_seen _ _ _ _ _ _ _ _ _ Hn1) as Hseen2.
  rewrite Hc1 in Hseen2.
  assert (c ∈ seen3) as Hused.
  { apply (for_nodes_seen_mono _ _ _ _ _ _ _ _ _ Hbetween).
    rewrite Hseen2. unfold dedup. case_bool_decide; set_solver. }
  assert (dedup seen3 c n2 = c +:+ "_" +:+ suffix n2) as Hdedup.
  { unfold dedup. by rewrite bool_decide_true. }
  rewrite Hfirst, Hsecond, Hdedup. repeat split.
  - intros Hfresh. unfold dedup. by rewrite bool_decide_false.
  - intros h [= <-]. set_solver.
  - intros i Hi. by rewrite (suffix_given _ _ Hi).
  - intros Hf. by rewrite suffix_dup.
  - intros h seen4 [= <-] Hres.
    destruct res as [w4 r4] eqn:Hn2. simpl in Hres. subst r4.
    apply process_node_seen in Hn2. rewrite Hc2, Hdedup in Hn2. set_solver.
  - intros i. apply slice_last_spec.
Qed.

(** C2, witness: a run of two routers named [R1]. *)
Lemma second_of_two_nodes_is_suffixed_witness :
  let twin := router "R1" "5d1c-42a7f0" in
  let env := sample_env [R1; twin] in
  let w2 := (process_node env sample_opts (Some "p1") "gns3.example.com"
               R1 ∅ empty_world).1 in
  added_hosts (new_events empty_world w2) = ["R1"]
  ∧ added_hosts (new_events w2
      (process_node env sample_opts (Some "p1") "gns3.example.com"
         twin {[ "R1" ]} w2).1) = ["R1_42a7f0"].
Proof.
  intros twin env w2.
  pose proof (second_of_two_nodes_is_suffixed env sample_opts (Some "p1")
    "gns3.example.com" [] [] R1 twin "R1" ∅ ∅ {[ "R1" ]} {[ "R1" ]}
    empty_world empty_world w2 w2) as H.
  destruct H as (H1 & _ & H2 & _).
  - reflexivity.
  - reflexivity.
  - reflexivity.
  - vm_compute. reflexivity.
  - reflexivity.
  - split.
    + apply H1. apply (bool_decide_unpack _). vm_compute. exact I.
    + apply (H2 "5d1c-42a7f0"). split; [reflexivity|discriminate].
Defined.

(** C2, counterexample: the third router is the first node of the run
    whose candidate is [R1_abc123], and the fourth resolves to the same
    candidate; the third does not keep it, since the second router was
    given that identifier. *)
Lemma first_of_two_nodes_is_suffixed :
  let third := router "R1_abc123" "c2e0-333333" in
  let fourth := router "R1_abc123" "d9b7-444444" in
  let before := [ router "R1" "a0f1-111111"; router "R1" "b7d3-abc123" ] in
  let env := sample_env (before ++ [third; fourth]) in
  let run := parse env sample_opts "gns3.yml" true empty_world in
  let w1 := (for_nodes env sample_opts (Some "p1") "gns3.example.com"
               before ∅ empty_world).1 in
  let first :=
    added_hosts (new_events w1
      (process_node env sample_opts (Some "p1") "gns3.example.com"
         third {[ "R1"; "R1_abc123" ]} w1).1) in
  nonempty (candidate (host_naming sample_opts) third) = Some "R1_abc123"
  ∧ nonempty (candidate (host_naming sample_opts) fourth) = Some "R1_abc123"
  ∧ Forall (λ n, nonempty (candidate (host_naming sample_opts) n) = Some "R1")
      before
  ∧ added_hosts (inventory run.1)
    = [ "R1"; "R1_abc123"; "R1_abc123_333333"; "R1_abc123_444444" ]
  ∧ first = [ "R1_abc123_333333" ]
  ∧ first ≠ [ "R1_abc123" ].
Proof.
  intros third fourth before env run w1 first.
  assert (first = [ "R1_abc123_333333" ]) as -> by (by vm_compute).
  split; [by vm_compute|]. split; [by vm_compute|].
  split; [repeat constructor|]. split; [by vm_compute|]. done.
Qed.

(** ** The fetch stage *)

(** C9. With no cached payload to use, a failure of the project list
    call, of the project resolution, or of the node list call aborts the
    run with that error (for a call, the error wrapping the cause): each
    URL was requested once, the cache is as it was, and the inventory is
    as it was, without any host or group added. *)
Theorem fetch_stage_failure_aborts
    (env : collaborators) (opts : options) (cache_key : string)
    (cache : bool) (w : world) :
  cache && cache_option opts = false ∨ _cache w !! cache_key = None →
  let base_url := rstrip_slash (url opts) in
  let projects_url := base_url +:+ "/v2/projects" in
  let nodes_url pid := base_url +:+ "/v2/projects/" +:+ fmt pid +:+ "/nodes" in
  let aborted urls e :=
    parse env opts cache_key cache w
    = (World (requests w ++ urls) (_cache w) (inventory w), inl (raised e)) in
  (∀ cause,
     get_projects env projects_url (validate_certs opts) = inl cause →
     aborted [projects_url] (http_error projects_url cause)
     ∧ orig_exc (http_error projects_url cause) = Some cause
     ∧ kind (http_error projects_url cause) = TransportError)
  ∧ (∀ projects e,
     get_projects env projects_url (validate_certs opts) = inr projects →
     _find_project_id projects (project_id opts) (project_name opts) = inl e →
     aborted [projects_url] e)
  ∧ (∀ projects pid cause,
     get_projects env projects_url (validate_certs opts) = inr projects →
     _find_project_id projects (project_id opts) (project_name opts) = inr pid →
     get_nodes env (nodes_url pid) (validate_certs opts) = inl cause →
     aborted [projects_url; nodes_url pid] (http_error (nodes_url pid) cause)
     ∧ orig_exc (http_error (nodes_url pid) cause) = Some cause
     ∧ kind (http_error (nodes_url pid) cause) = TransportError).
Proof.
  intros Hmiss base_url projects_url nodes_url aborted. subst aborted.
  cbv beta. rewrite parse_run, (fetch_remote _ _ _ _ _ Hmiss). cbv zeta.
  fold base_url. fold projects_url. split; [|split].
  - intros cause ->. done.
  - intros projects e -> ->. done.
  - intros projects pid cause -> ->. fold (nodes_url pid). intros ->. done.
Qed.

(** C9, witness: the sample controller, asked for a project it does not
    have. *)
Lemma fetch_stage_failure_aborts_witness :
  let opts := {| url := url sample_opts; project_id := Some "p2";
                 project_name := None; validate_certs := false;
                 group := "gns3"; host_naming := "name";
                 port_offset := None; group_by_node_type := true;
                 cache_option := true; strict := false |} in
  _cache empty_world !! "gns3.yml" = None
  ∧ parse (sample_env [R1]) opts "gns3.yml" true empty_world
    = (World [ "http://gns3.example.com:3080/v2/projects" ] ∅ [],
       inl (raised (project_id_not_found "p2"))).
Proof.
  intros opts. split; [reflexivity|].
  refine (proj1 (proj2 (fetch_stage_failure_aborts (sample_env [R1]) opts
            "gns3.yml" true empty_world _))
            [Project (Some "p1") (Some "Lab")] (project_id_not_found "p2") _ _).
  - right. reflexivity.
  - reflexivity.
  - reflexivity.
Defined.



(** ** The cache *)

(** The loop reads nothing of the world but the inventory, and nothing of
    the collaborators but the evaluator. *)
Lemma process_node_same env env' opts pid ch n seen w w' :
  evaluator env = evaluator env' → inventory w = inventory w' →
  process_node env' opts pid ch n seen w' =
    let res := process_node env opts pid ch n seen w in
    (World (requests w') (_cache w') (inventory res.1), res.2).
Proof.
  intros Hev Hinv. unfold process_node.
  destruct (nonempty (candidate (host_naming opts) n)) as [c|].
  - do 3 (step_run; symmetry; step_run; symmetry).
    rewrite ?Hinv.
    do 3 (step_run; symmetry; step_run; symmetry; rewrite <- ?Hev;
          destruct (evaluator env _); [done|]).
    done.
  - destruct w'. simpl in *. by subst.
Qed.

Lemma for_nodes_same env env' opts pid ch nodes seen w w' :
  evaluator env = evaluator env' → inventory w = inventory w' →
  for_nodes env' opts pid ch nodes seen w' =
    let res := for_nodes env opts pid ch nodes seen w in
    (World (requests w') (_cache w') (inventory res.1), res.2).
Proof.
  intros Hev. revert seen w w'.
  induction nodes as [|n rest IH]; intros seen w w' Hinv.
  - destruct w'. simpl in *. by subst.
  - rewrite !for_nodes_cons.
    rewrite (process_node_same env env' _ _ _ _ _ w w' Hev Hinv). cbv zeta.
    destruct (process_node env opts pid ch n seen w) as [w1 [e|seen1]]; [done|].
    cbn [fst snd].
    by rewrite (IH seen1 w1 (World (requests w') (_cache w') (inventory w1))
                  eq_refl).
Qed.

Lemma find_project_id_error projects project_id project_name e :
  _find_project_id projects project_id project_name = inl e →
  kind e = NotFound ∨ kind e = AmbiguousSelector ∨ kind e = MissingSelector.
Proof.
  unfold _find_project_id.
  destruct (nonempty project_id) as [pid|].
  - induction projects as [|p rest IH]; simpl.
    + intros [= <-]. by left.
    + by case_bool_decide.
  - destruct (nonempty project_name) as [nm|]; [|intros [= <-]; auto].
    destruct (filter _ _); [intros [= <-]; auto|].
    case_bool_decide; [intros [= <-]; auto|done].
Qed.

Lemma fetch_error env opts cache_key use_cache w w1 f :
  fetch env opts cache_key use_cache w = (w1, inl f) → ∃ e, f = raised e.
Proof.
  destruct use_cache.
  - destruct (_cache w !! cache_key) as [cached|] eqn:Hc.
    + by rewrite (fetch_cached _ _ _ _ _ Hc).
    + rewrite fetch_remote by (by right). cbv zeta.
      repeat case_match; intros ?; simplify_eq; eauto.
  - rewrite fetch_remote by (by left). cbv zeta.
    repeat case_match; intros ?; simplify_eq; eauto.
Qed.

(** The fetch stage never fails the way the evaluator does. *)
Lemma fetch_failure_kind env opts cache_key use_cache w w1 f :
  fetch env opts cache_key use_cache w = (w1, inl f) →
  failure_kind f ≠ CompositionError.
Proof.
  intros Hf. pose proof Hf as [e ->]%fetch_error. simpl.
  destruct use_cache.
  - destruct (_cache w !! cache_key) as [cached|] eqn:Hc.
    + by rewrite (fetch_cached _ _ _ _ _ Hc) in Hf.
    + rewrite fetch_remote in Hf by (by right). cbv zeta in Hf.
      repeat case_match; simplify_eq; try done.
      match goal with H : _find_project_id _ _ _ = inl _ |- _ =>
        apply find_project_id_error in H; intros Hk; rewrite Hk in H;
        naive_solver end.
  - rewrite fetch_remote in Hf by (by left). cbv zeta in Hf.
    repeat case_match; simplify_eq; try done.
    match goal with H : _find_project_id _ _ _ = inl _ |- _ =>
      apply find_project_id_error in H; intros Hk; rewrite Hk in H;
      naive_solver end.
Qed.

Lemma fetch_leaves_payload env opts cache_key w w1 payload :
  fetch env opts cache_key true w = (w1, inr payload) →
  _cache w1 !! cache_key = Some payload.
Proof.
  destruct (_cache w !! cache_key) as [cached|] eqn:Hc.
  - rewrite (fetch_cached _ _ _ _ _ Hc). by intros [= <- <-].
  - rewrite fetch_remote by (by right). cbv zeta.
    repeat case_match; try done.
    intros [= <- <-]. simpl. apply lookup_insert_eq.
Qed.

(** C6. With caching enabled and a payload in the cache under the cache
    key, the run takes that payload as it is and requests nothing from the
    controller.  Hence a run repeated on the cache that a first run left,
    under the same key and from the same inventory, requests nothing
    more, whatever the controller would answer, and ends with the same
    inventory and the same outcome as the first. *)
Theorem cached_payload_is_reused
    (env : collaborators) (opts : options) (cache_key : string) :
  cache_option opts = true →
  (∀ w payload, _cache w !! cache_key = Some payload →
     fetch env opts cache_key (true && cache_option opts) w = (w, inr payload)
     ∧ requests (parse env opts cache_key true w).1 = requests w
     ∧ _cache (parse env opts cache_key true w).1 = _cache w
     ∧ inventory (parse env opts cache_key true w).1
       = inventory
           (for_nodes env opts (source_project_id payload)
              (_controller_host_from_url env (rstrip_slash (url opts)))
              (source_nodes payload) ∅
              (World (requests w) (_cache w)
                 (inventory w ++ [add_group (group opts)]))).1)
  ∧ (∀ w0 w1 r1 projects_now nodes_now,
     parse env opts cache_key true w0 = (w1, r1) →
     r1 = inr () ∨ (∃ cause, r1 = inl (evaluation_error cause)) →
     let controller_now :=
       {| urlparse_hostname := urlparse_hostname env;
          get_projects := projects_now; get_nodes := nodes_now;
          evaluator := evaluator env |} in
     parse controller_now opts cache_key true
       (World (requests w1) (_cache w1) (inventory w0))
     = (w1, r1)).
Proof.
  intros Hopt. rewrite Hopt. change (true && true) with true. split.
  - intros w payload Hc. split; [by apply fetch_cached|].
    rewrite parse_run, Hopt. cbn [andb].
    rewrite (fetch_cached _ _ _ _ _ Hc). cbv zeta.
    match goal with |- context [for_nodes ?e ?o ?p ?ch ?ns ?s ?w2] =>
      pose proof (for_nodes_frame e o p ch ns s w2) as (Hr & Hca & _);
      destruct (for_nodes e o p ch ns s w2) as [w3 [e'|seen']]
    end; done.
  - intros w0 w1 r1 projects_now nodes_now Hrun Hpast controller_now.
    rewrite parse_run, Hopt in Hrun. cbn [andb] in Hrun.
    destruct (fetch env opts cache_key true w0) as [wf [e|payload]] eqn:Hfetch.
    { apply fetch_error in Hfetch as [e' ->]. simplify_eq.
      by destruct Hpast as [?|[? ?]]. }
    pose proof (fetch_leaves_payload _ _ _ _ _ _ Hfetch) as Hpayload.
    pose proof (fetch_frame env opts cache_key true w0) as Hinv.
    rewrite Hfetch in Hinv. simpl in Hinv.
    cbv zeta in Hrun.
    match type of Hrun with context [for_nodes ?e ?o ?p ?ch ?ns ?s ?w2] =>
      pose proof (for_nodes_frame e o p ch ns s w2) as (Hr & Hca & _);
      destruct (for_nodes e o p ch ns s w2) as [w3 r3] eqn:Hloop
    end.
    simpl in Hr, Hca.
    assert (w3 = w1) as -> by (by destruct r3; simplify_eq).
    rewrite <- Hca in Hpayload.
    rewrite parse_run, Hopt. cbn [andb].
    rewrite (fetch_cached controller_now opts cache_key
               (World (requests w1) (_cache w1) (inventory w0)) payload Hpayload).
    cbv zeta. cbn [requests _cache inventory].
    match goal with |- context [for_nodes controller_now ?o ?p ?ch ?ns ?s ?w2] =>
      rewrite (for_nodes_same env controller_now o p ch ns s
                 (World (requests wf) (_cache wf)
                    (inventory wf ++ [add_group (group opts)])) w2 eq_refl)
    end.
    2: { simpl. by rewrite Hinv. }
    unfold _controller_host_from_url at 1. cbn [urlparse_hostname controller_now].
    fold (_controller_host_from_url env (rstrip_slash (url opts))).
    rewrite Hloop. cbv zeta. cbn [fst snd requests _cache inventory].
    destruct w1 as [rq1 c1 inv1]. by destruct r3.
Qed.

(** C6, witness: the sample run, then again with the controller
    unreachable. *)
Lemma cached_payload_is_reused_witness :
  let w1 := (parse (sample_env [R1]) sample_opts "gns3.yml" true
               empty_world).1 in
  cache_option sample_opts = true
  ∧ parse (unreachable (sample_env [R1])) sample_opts "gns3.yml" true
      (World (requests w1) (_cache w1) []) = (w1, inr ()).
Proof.
  intros w1. split; [reflexivity|].
  refine (proj2 (cached_payload_is_reused (sample_env [R1]) sample_opts
            "gns3.yml" _) empty_world w1 (inr ()) _ _ _ _).
  - reflexivity.
  - vm_compute. reflexivity.
  - left. reflexivity.
Defined.

(** ** Groups *)

Lemma host_vars_set_variable pid ch off host n e :
  e ∈ host_vars pid ch off host n → ∃ k v, e = set_variable host k v.
Proof.
  unfold host_vars. destruct (isinstance_int (console n)); cbn [app];
    intros He; repeat (apply elem_of_cons in He as [->|He]; [eauto|]);
    by apply elem_of_nil in He.
Qed.

Lemma type_group_event flag host n e :
  e ∈ type_group flag host n →
  flag = true
  ∧ ∃ t, given (node_type n) t
         ∧ (e = add_group ("gns3_type_" +:+ t)
            ∨ e = add_child ("gns3_type_" +:+ t) host).
Proof.
  unfold type_group. destruct flag; simpl; [|by intros ?%elem_of_nil].
  destruct (truthy (node_type n)) eqn:Ht; [|by intros ?%elem_of_nil].
  apply truthy_given in Ht as [t Ht]. intros He. split; [done|].
  exists t. split; [done|]. destruct Ht as [Ht _]. rewrite Ht in He.
  simpl in He.
  apply elem_of_cons in He as [->|He]; [by left|].
  apply list_elem_of_singleton in He as ->. by right.
Qed.

Lemma hooks_constructed hooks host strict e :
  hooks `prefix_of` hook_events host strict → e ∈ hooks →
  ∃ h, e = constructed h host strict.
Proof.
  intros [k Hk] He. assert (e ∈ hook_events host strict) as Hin.
  { rewrite Hk. apply elem_of_app. by left. }
  unfold hook_events in Hin.
  repeat (apply elem_of_cons in Hin as [->|Hin]; [eauto|]).
  by apply elem_of_nil in Hin.
Qed.

(** An event of the loop, by the iteration it belongs to. *)
Lemma iterations_event opts pid ch nodes evs e :
  iterations opts pid ch nodes evs → e ∈ evs →
  ∃ host n, n ∈ nodes ∧ add_host host (group opts) ∈ evs
    ∧ (e = add_host host (group opts)
       ∨ (∃ k v, e = set_variable host k v)
       ∨ (group_by_node_type opts = true
          ∧ ∃ t, given (node_type n) t
                 ∧ (e = add_group ("gns3_type_" +:+ t)
                    ∨ e = add_child ("gns3_type_" +:+ t) host))
       ∨ (∃ h, e = constructed h host (strict opts))).
Proof.
  induction 1 as [|host n hooks rest Hn Hp Hrest IH]; [by intros ?%elem_of_nil|].
  intros He. apply elem_of_app in He as [He|He].
  - exists host, n. split; [done|]. split.
    { apply elem_of_app. left. unfold mapped_events. left. }
    unfold mapped_events in He. apply elem_of_cons in He as [->|He]; [by left|].
    apply elem_of_app in He as [He|He].
    + right. left. by apply host_vars_set_variable in He.
    + right. right. left. by apply type_group_event in He.
  - apply elem_of_app in He as [He|He].
    + exists host, n. split; [done|]. split.
      { apply elem_of_app. left. unfold mapped_events. left. }
      do 3 right. by apply (hooks_constructed _ _ _ _ Hp).
    + destruct (IH He) as (host' & n' & Hn' & Hadd & Hcases).
      exists host', n'. split; [done|]. split; [|done].
      apply elem_of_app. right. apply elem_of_app. by right.
Qed.

Section LoopEvents.
Variable env : collaborators.
Variables (opts : options) (pid : option string) (controller_host : string).

Lemma for_nodes_iterations (all nodes : list node) seen w :
  nodes ⊆ all →
  ∃ evs,
    inventory (for_nodes env opts pid controller_host nodes seen w).1
    = inventory w ++ evs
    ∧ iterations opts pid controller_host all evs.
Proof.
  revert seen w. induction nodes as [|n rest IH]; intros seen w Hsub.
  { exists []. simpl. rewrite app_nil_r. split; [done|constructor]. }
  assert (n ∈ all) as Hn by (apply Hsub; left).
  assert (rest ⊆ all) as Hrest by (intros x Hx; apply Hsub; by right).
  rewrite for_nodes_cons.
  pose proof (process_node_cases env opts pid controller_host n seen w) as Hc.
  destruct (nonempty (candidate (host_naming opts) n)) as [c|].
  - destruct Hc as (hooks & r & -> & Hp & [[-> _]|[e ->]]).
    + match goal with |- context [for_nodes _ _ _ _ _ ?s ?w1] =>
        destruct (IH s w1 Hrest) as (evs & -> & Hit) end.
      eexists. cbn [inventory]. split; [by rewrite <- !app_assoc|].
      by constructor.
    + eexists (_ ++ _ ++ []). cbn [fst inventory].
      split; [by rewrite app_nil_r|]. constructor; [done..|constructor].
  - rewrite Hc. by apply IH.
Qed.
End LoopEvents.

Lemma members_alter h g (groups : gmap string (gset string)) g' :
  members (alter (λ ms, {[ h ]} ∪ ms) g groups) g'
  = if decide (g = g')
    then match groups !! g with
         | Some _ => {[ h ]} ∪ members groups g
         | None => ∅
         end
    else members groups g'.
Proof.
  unfold members. rewrite lookup_alter. case_decide; [subst g'|done].
  by destruct (groups !! g).
Qed.

Lemma members_add_group g (groups : gmap string (gset string)) g' :
  members (apply_event groups (add_group g)) g' = members groups g'.
Proof.
  unfold members. simpl. destruct (groups !! g) eqn:Hg; [done|].
  destruct (decide (g = g')) as [<-|Hne].
  - by rewrite lookup_insert_eq, Hg.
  - by rewrite lookup_insert_ne.
Qed.

Lemma apply_event_mono groups e g :
  members groups g ⊆ members (apply_event groups e) g.
Proof.
  destruct e as [g0|h g0| | g0 h|]; try done.
  - by rewrite members_add_group.
  - simpl. rewrite members_alter. case_decide; [subst g|done].
    unfold members. destruct (groups !! g0); set_solver.
  - simpl. rewrite members_alter. case_decide; [subst g|done].
    unfold members. destruct (groups !! g0); set_solver.
Qed.

Lemma foldl_apply_event_mono evs groups g :
  members groups g ⊆ members (foldl apply_event groups evs) g.
Proof.
  revert groups. induction evs as [|e evs IH]; intros groups; [done|].
  simpl. etrans; [apply apply_event_mono|apply IH].
Qed.

Lemma parent_holds_all_put parent groups h g :
  parent_holds_all parent groups →
  g = parent ∨ h ∈ members groups parent →
  parent_holds_all parent (alter (λ ms, {[ h ]} ∪ ms) g groups)
  ∧ (g = parent → h ∈ members (alter (λ ms, {[ h ]} ∪ ms) g groups) parent).
Proof.
  intros [[pm Hpm] Hall] Hg. split; [split|].
  - rewrite lookup_alter. case_decide; [subst g; by rewrite Hpm|by rewrite Hpm].
  - intros g'. rewrite !members_alter.
    destruct (decide (g = g')) as [<-|Hne], (decide (g = parent)) as [->|Hnp].
    + done.
    + destruct Hg as [?|Hin]; [done|].
      destruct (groups !! g); [|set_solver]. specialize (Hall g). set_solver.
    + rewrite Hpm. specialize (Hall g'). set_solver.
    + apply Hall.
  - intros ->. rewrite members_alter, decide_True by done. rewrite Hpm. set_solver.
Qed.

Lemma parent_holds_all_add_group parent groups g :
  parent_holds_all parent groups →
  parent_holds_all parent (apply_event groups (add_group g)).
Proof.
  intros [[pm Hpm] Hall]. split.
  - simpl. destruct (groups !! g) eqn:Hg; [by rewrite Hpm|].
    destruct (decide (g = parent)) as [->|Hne]; [congruence|].
    by rewrite lookup_insert_ne, Hpm.
  - intros g'. rewrite !members_add_group. apply Hall.
Qed.

Lemma foldl_apply_host_vars groups pid ch off host n :
  foldl apply_event groups (host_vars pid ch off host n) = groups.
Proof. unfold host_vars. by destruct (isinstance_int (console n)). Qed.

Lemma foldl_apply_hooks groups hooks host strict :
  hooks `prefix_of` hook_events host strict →
  foldl apply_event groups hooks = groups.
Proof.
  intros Hp. assert (Forall (λ e, ∃ h, e = constructed h host strict) hooks)
    as Hall.
  { apply Forall_forall. intros e. by apply hooks_constructed. }
  clear Hp. induction Hall as [|e hooks [h ->] _ IH]; [done|]. by simpl.
Qed.

Lemma iterations_groups opts pid ch nodes evs :
  iterations opts pid ch nodes evs →
  ∀ groups, parent_holds_all (group opts) groups →
    parent_holds_all (group opts) (foldl apply_event groups evs)
    ∧ ∀ h g, add_host h g ∈ evs →
        h ∈ members (foldl apply_event groups evs) (group opts).
Proof.
  induction 1 as [|host n hooks rest Hn Hp Hrest IH]; intros groups Hall.
  { split; [done|]. by intros h g ?%elem_of_nil. }
  rewrite !foldl_app, (foldl_apply_hooks _ _ _ _ Hp).
  destruct (parent_holds_all_put _ _ host (group opts) Hall (or_introl eq_refl))
    as [Hall1 Hin1]. specialize (Hin1 eq_refl).
  set (groups1 := apply_event groups (add_host host (group opts))) in *.
  assert (foldl apply_event groups (mapped_events opts pid ch host n)
          = foldl apply_event groups1
              (type_group (group_by_node_type opts) host n)) as ->.
  { unfold mapped_events. cbn [foldl].
    by rewrite foldl_app, foldl_apply_host_vars. }
  assert (parent_holds_all (group opts)
            (foldl apply_event groups1 (type_group (group_by_node_type opts) host n))
          ∧ host ∈ members
              (foldl apply_event groups1
                 (type_group (group_by_node_type opts) host n)) (group opts))
    as [Hall2 Hin2].
  { split; [|by apply foldl_apply_event_mono].
    unfold type_group.
    destruct (group_by_node_type opts && truthy (node_type n)); [|done].
    cbn [foldl].
    apply parent_holds_all_put; [by apply parent_holds_all_add_group|].
    right. by rewrite members_add_group. }
  destruct (IH _ Hall2) as [Hall3 Hin3]. split; [done|].
  intros h g Hadd. apply elem_of_app in Hadd as [Hadd|Hadd].
  - assert (h = host) as ->.
    { unfold mapped_events in Hadd.
      apply elem_of_cons in Hadd as [[= -> _]|Hadd]; [done|].
      apply elem_of_app in Hadd as [Hadd|Hadd].
      - by apply host_vars_set_variable in Hadd as (? & ? & ?).
      - apply type_group_event in Hadd as (_ & t & _ & [?|?]); done. }
    by apply (foldl_apply_event_mono rest _ (group opts)).
  - apply elem_of_app in Hadd as [Hadd|Hadd]; [|by eapply Hin3].
    by apply (hooks_constructed _ _ _ _ Hp) in Hadd as [? ?].
Qed.

(** The calls of a whole run on a fresh inventory: none when the fetch
    stage failed, else the creation of the parent group, then the loop over
    the nodes of the payload. *)
Lemma parse_events env opts cache_key cache w :
  inventory w = [] →
  let evs := inventory (parse env opts cache_key cache w).1 in
  evs = []
  ∨ ∃ w1 payload rest,
      fetch env opts cache_key (cache && cache_option opts) w = (w1, inr payload)
      ∧ evs = add_group (group opts) :: rest
      ∧ iterations opts (source_project_id payload)
          (_controller_host_from_url env (rstrip_slash (url opts)))
          (source_nodes payload) rest.
Proof.
  intros Hw evs. subst evs. rewrite parse_run.
  pose proof (fetch_frame env opts cache_key (cache && cache_option opts) w)
    as Hfr.
  destruct (fetch env opts cache_key _ w) as [w1 [e|payload]];
    simpl in Hfr; [left; simpl; congruence|].
  right. exists w1, payload. cbv zeta.
  match goal with |- context [for_nodes ?e ?o ?p ?ch ?ns ?s ?w2] =>
    destruct (for_nodes_iterations e o p ch ns ns s w2) as (rest & Hrest & Hit);
      [done|];
    destruct (for_nodes e o p ch ns s w2) as [w3 r]
  end.
  simpl in Hrest. rewrite Hfr, Hw in Hrest. exists rest.
  split; [done|]. split; [|done]. by destruct r.
Qed.

(** C8. In a run on a fresh inventory the first call creates the parent
    group, so before any host is added, and creating a group again changes
    nothing.  Every host is added to the parent group and stays a member of
    it.  A type group [gns3_type_<node_type>] is created, and a host put in
    it, only with [group_by_node_type] enabled and for a node whose type is
    not empty, and that host is a member of the parent group.  Hence the
    members of every group the run produces are members of the parent
    group. *)
Theorem parent_group_holds_every_host
    (env : collaborators) (opts : options) (cache_key : string)
    (cache : bool) (w : world) :
  inventory w = [] →
  let evs := inventory (parse env opts cache_key cache w).1 in
  let groups := groups_of evs in
  (evs = [] ∨ ∃ rest, evs = add_group (group opts) :: rest)
  ∧ (∀ groups0 g,
       apply_event (apply_event groups0 (add_group g)) (add_group g)
       = apply_event groups0 (add_group g))
  ∧ (∀ h g, add_host h g ∈ evs →
       g = group opts ∧ h ∈ members groups (group opts))
  ∧ (∀ h k v, set_variable h k v ∈ evs → add_host h (group opts) ∈ evs)
  ∧ (∀ g h, add_child g h ∈ evs →
       group_by_node_type opts = true
       ∧ (∃ payload n t,
            (fetch env opts cache_key (cache && cache_option opts) w).2
              = inr payload
            ∧ n ∈ source_nodes payload ∧ given (node_type n) t
            ∧ g = "gns3_type_" +:+ t)
       ∧ h ∈ members groups (group opts))
  ∧ (∀ g, add_group g ∈ evs →
       g = group opts
       ∨ (group_by_node_type opts = true
          ∧ ∃ payload n t,
              (fetch env opts cache_key (cache && cache_option opts) w).2
                = inr payload
              ∧ n ∈ source_nodes payload ∧ given (node_type n) t
              ∧ g = "gns3_type_" +:+ t))
  ∧ (∀ g, members groups g ⊆ members groups (group opts)).
Proof.
  intros Hw evs groups.
  assert (∀ groups0 g,
            apply_event (apply_event groups0 (add_group g)) (add_group g)
            = apply_event groups0 (add_group g)) as Hidem.
  { intros groups0 g. simpl. destruct (groups0 !! g) eqn:Hg.
    - by rewrite Hg.
    - by rewrite lookup_insert_eq. }
  destruct (parse_events env opts cache_key cache w Hw)
    as [Hnil|(w1 & payload & rest & Hfetch & Hevs & Hit)]; fold evs in Hnil || fold evs in Hevs.
  { subst groups. rewrite Hnil. split; [by left|]. split; [done|].
    split; [by intros h g ?%elem_of_nil|].
    split; [by intros h k v ?%elem_of_nil|].
    split; [by intros g h ?%elem_of_nil|].
    split; [by intros g ?%elem_of_nil|]. by intros g. }
  assert (parent_holds_all (group opts) {[ group opts := ∅ ]}) as Hinit.
  { split; [by rewrite lookup_singleton_eq|].
    intros g. unfold members.
    destruct (decide (group opts = g)) as [<-|Hne]; [done|].
    by rewrite lookup_singleton_ne. }
  destruct (iterations_groups _ _ _ _ _ Hit _ Hinit) as [Hall Hmember].
  assert (groups = foldl apply_event {[ group opts := ∅ ]} rest) as Hgroups.
  { subst groups. by rewrite Hevs. }
  rewrite Hgroups, Hevs, Hfetch. cbn [snd].
  split; [right; by eexists|]. split; [done|].
  assert (∀ e, e ∈ add_group (group opts) :: rest →
            e = add_group (group opts) ∨ e ∈ rest) as Hsplit
    by (by intros e ?%elem_of_cons).
  split; [|split; [|split; [|split]]].
  - intros h g [?|Hin]%Hsplit; [done|]. split; [|by eapply Hmember].
    destruct (iterations_event _ _ _ _ _ _ Hit Hin)
      as (host & n & _ & _ & [?|[(? & ? & ?)|[(_ & ? & _ & [?|?])|[? ?]]]]);
      by simplify_eq.
  - intros h k v [?|Hin]%Hsplit; [done|].
    destruct (iterations_event _ _ _ _ _ _ Hit Hin)
      as (host & n & _ & Hadd
          & [?|[(? & ? & ?)|[(_ & ? & _ & [?|?])|[? ?]]]]);
      try done.
    simplify_eq. by right.
  - intros g h [?|Hin]%Hsplit; [done|].
    destruct (iterations_event _ _ _ _ _ _ Hit Hin)
      as (host & n & Hn & Hadd
          & [?|[(? & ? & ?)|[(Hflag & t & Ht & [?|?])|[? ?]]]]);
      try done.
    simplify_eq. split; [done|]. split; [by exists payload, n, t|].
    by eapply Hmember.
  - intros g [?|Hin]%Hsplit; [left; by simplify_eq|]. right.
    destruct (iterations_event _ _ _ _ _ _ Hit Hin)
      as (host & n & Hn & Hadd
          & [?|[(? & ? & ?)|[(Hflag & t & Ht & [?|?])|[? ?]]]]);
      try done.
    simplify_eq. split; [done|]. by exists payload, n, t.
  - apply Hall.
Qed.

Example sample_groups :
  groups_of (inventory (parse (sample_env [R1]) sample_opts "gns3.yml" true
                          empty_world).1)
  = {[ "gns3" := {[ "R1" ]}; "gns3_type_router" := {[ "R1" ]} ]}.
Proof. vm_compute. reflexivity. Qed.

(** C8, witness: the groups of the sample run. *)
Lemma parent_group_holds_every_host_witness :
  let evs := inventory (parse (sample_env [R1]) sample_opts "gns3.yml" true
                          empty_world).1 in
  inventory empty_world = []
  ∧ "R1" ∈ members (groups_of evs) "gns3"
  ∧ members (groups_of evs) "gns3_type_router"
    ⊆ members (groups_of evs) "gns3".
Proof.
  intros evs.
  pose proof (parent_group_holds_every_host (sample_env [R1]) sample_opts
                "gns3.yml" true empty_world eq_refl)
    as (_ & _ & Hhost & _ & _ & _ & Hsup).
  split; [reflexivity|]. split; [|apply Hsup].
  apply (Hhost "R1" "gns3"). vm_compute. do 1 right. left.
Defined.

(** * Further properties of the code *)

(** ** Recognising the inventory source *)

Lemma string_drop_append p s : string_drop (String.length p) (p +:+ s) = s.
Proof. induction p as [|a p IH]; [done|]. exact IH. Qed.

Lemma endswith_spec s suffix :
  endswith s suffix = true ↔ ∃ p, s = p +:+ suffix.
Proof.
  unfold endswith. rewrite bool_decide_eq_true. split.
  - intros Hd.
    destruct (string_drop_spec (String.length s - String.length suffix) s)
      as (front & Hs & _).
    exists front. by rewrite Hd in Hs.
  - intros [p ->]. rewrite length_append.
    replace (String.length p + String.length suffix - String.length suffix)
      with (String.length p) by lia.
    apply string_drop_append.
Qed.

(** X1. [verify_file] accepts a path exactly when the base class accepts it
    and the path ends in [gns3.yaml] or [gns3.yml], whatever comes before.
    To what the base class displayed it adds the skipping message exactly
    when the base class accepts the path and the ending is another, and
    never anything else. *)
Theorem verify_file_accepts
    (super_verify_file : string → bool * list string) (path : string) :
  let named :=
    ∃ front, path = front +:+ "gns3.yaml" ∨ path = front +:+ "gns3.yml" in
  let accepted := (super_verify_file path).1 in
  let displayed := (super_verify_file path).2 in
  ((verify_file super_verify_file path).1 = true ↔ accepted = true ∧ named)
  ∧ ((verify_file super_verify_file path).2 = displayed ++ [skipping_message]
     ↔ accepted = true ∧ ¬ named)
  ∧ ((verify_file super_verify_file path).2 = displayed
     ∨ (verify_file super_verify_file path).2 = displayed ++ [skipping_message]).
Proof.
  intros named accepted displayed. subst accepted displayed.
  assert (endswith path "gns3.yaml" || endswith path "gns3.yml" = true ↔ named)
    as Hnamed.
  { rewrite orb_true_iff, !endswith_spec. subst named. split.
    - intros [[p ->]|[p ->]]; exists p; auto.
    - intros [p [->| ->]]; [left|right]; by exists p. }
  assert (∀ shown : list string, shown ≠ shown ++ [skipping_message]) as Hgrow.
  { intros shown Heq. apply (f_equal length) in Heq.
    rewrite length_app in Heq. simpl in Heq. lia. }
  unfold verify_file. destruct (super_verify_file path) as [[|] shown]; simpl.
  - destruct (endswith path "gns3.yaml" || endswith path "gns3.yml"); simpl.
    + assert named as Hyes by (by apply Hnamed).
      split; [tauto|]. split; [|by left].
      split; [by intros ?%Hgrow|tauto].
    + assert (¬ named) as Hno by (intros H; by apply Hnamed in H).
      split; [split; [done|tauto]|]. split; [tauto|by right].
  - split; [split; [done|intros [? _]; done]|].
    split; [|by left]. split; [by intros ?%Hgrow|intros [? _]; done].
Qed.

Example verify_file_sample :
  let unreadable :=
    "Skipping due to inventory source not existing or not being readable" in
  verify_file (λ _, (true, [])) "inventories/lab.gns3.yml" = (true, [])
  ∧ verify_file (λ _, (true, [])) "gns3.yml.bak" = (false, [skipping_message])
  ∧ verify_file (λ _, (false, [unreadable])) "gns3.yml" = (false, [unreadable]).
Proof. by vm_compute. Qed.

(** ** Project resolution, again *)

Lemma scan_project_id_Exists projects pid :
  scan_project_id projects pid =
    if decide (Exists (λ p, p_project_id p = Some pid) projects)
    then inr (Some pid) else inl (project_id_not_found pid).
Proof.
  case_decide as He; rewrite Exists_exists in He.
  - by apply scan_project_id_found.
  - by apply scan_project_id_absent.
Qed.

(** X2. The resolution does not depend on the order in which the
    controller lists the projects. *)
Theorem find_project_id_order_irrelevant
    (projects projects' : list project) (project_id project_name : option string) :
  projects ≡ₚ projects' →
  _find_project_id projects project_id project_name
  = _find_project_id projects' project_id project_name.
Proof.
  intros Hperm. unfold _find_project_id.
  destruct (nonempty project_id) as [pid|].
  - rewrite !scan_project_id_Exists.
    apply decide_ext. by rewrite Hperm.
  - destruct (nonempty project_name) as [nm|]; [|done].
    assert (filter (name_matches nm) projects
            ≡ₚ filter (name_matches nm) projects') as Hf by (by rewrite Hperm).
    pose proof (Permutation_length Hf) as Hlen.
    destruct (filter (name_matches nm) projects) as [|p [|q l]],
      (filter (name_matches nm) projects') as [|p' [|q' l']];
      simpl in Hlen; try lia.
    + done.
    + apply Permutation_singleton_l in Hf. by simplify_eq.
    + rewrite !bool_decide_true; [done|simpl; lia..].
Qed.

(** X2, witness: the sample project and another, in both orders. *)
Lemma find_project_id_order_irrelevant_witness :
  let lab := Project (Some "p1") (Some "Lab") in
  let test := Project (Some "p2") (Some "Test") in
  [lab; test] ≡ₚ [test; lab]
  ∧ _find_project_id [lab; test] None (Some "Test")
    = _find_project_id [test; lab] None (Some "Test").
Proof.
  intros lab test.
  assert ([lab; test] ≡ₚ [test; lab]) as Hperm by apply Permutation_swap.
  split; [exact Hperm|].
  exact (find_project_id_order_irrelevant _ _ None (Some "Test") Hperm).
Defined.

Lemma find_project_id_unique_name projects project_id project_name nm
    (l1 l2 : list project) p :
  truthy project_id = false → given project_name nm →
  projects = l1 ++ p :: l2 → p_name p = Some nm →
  (∀ q, q ∈ l1 ++ l2 → p_name q ≠ Some nm) →
  _find_project_id projects project_id project_name = inr (p_project_id p).
Proof.
  intros Hid Hname -> Hp Hothers. unfold _find_project_id.
  apply nonempty_None in Hid. apply nonempty_Some in Hname.
  rewrite Hid, Hname. cbv zeta.
  rewrite filter_app, filter_cons_True by done.
  rewrite !filter_no_match; [done| |].
  - intros q Hq. apply Hothers. apply elem_of_app. by right.
  - intros q Hq. apply Hothers. apply elem_of_app. by left.
Qed.

(** ** The requests of a run *)

(** After the fetch stage a run leaves requests and cache alone. *)
Lemma parse_frame env opts cache_key cache w :
  let wf := (fetch env opts cache_key (cache && cache_option opts) w).1 in
  let w' := (parse env opts cache_key cache w).1 in
  requests w' = requests wf ∧ _cache w' = _cache wf.
Proof.
  intros wf w'. subst wf w'. rewrite parse_run.
  destruct (fetch env opts cache_key _ w) as [w1 [e|payload]]; [done|].
  cbv zeta.
  match goal with |- context [for_nodes ?e ?o ?p ?ch ?ns ?s ?w2] =>
    pose proof (for_nodes_frame e o p ch ns s w2) as (Hr & Hc & _);
    destruct (for_nodes e o p ch ns s w2) as [w3 [e'|seen']]
  end; done.
Qed.

(** X3. A project found by name that carries no [project_id] resolves,
    without error, to [None], and the node list is then requested under
    the project id [None]. *)
Theorem project_without_id_resolves_to_None
    (env : collaborators) (opts : options) (cache_key : string)
    (cache : bool) (w : world) (projects l1 l2 : list project)
    (p : project) (nm : string) :
  cache && cache_option opts = false ∨ _cache w !! cache_key = None →
  truthy (project_id opts) = false →
  given (project_name opts) nm →
  get_projects env (projects_url opts) (validate_certs opts) = inr projects →
  projects = l1 ++ p :: l2 →
  p_name p = Some nm →
  (∀ q, q ∈ l1 ++ l2 → p_name q ≠ Some nm) →
  p_project_id p = None →
  _find_project_id projects (project_id opts) (project_name opts) = inr None
  ∧ requests (parse env opts cache_key cache w).1
    = requests w
        ++ [ projects_url opts;
             rstrip_slash (url opts) +:+ "/v2/projects/None/nodes" ].
Proof.
  intros Hmiss Hid Hname Hprojects Hsplit Hp Hothers Hnone.
  pose proof (find_project_id_unique_name _ _ _ _ _ _ _ Hid Hname Hsplit Hp
                Hothers) as Hfind.
  rewrite Hnone in Hfind. split; [done|].
  destruct (parse_frame env opts cache_key cache w) as [-> _].
  rewrite (fetch_remote _ _ _ _ _ Hmiss). cbv zeta.
  fold (projects_url opts). rewrite Hprojects, Hfind. simpl fmt.
  by destruct (get_nodes env _ _).
Qed.

(** X3, witness: a controller whose project [Lab] has no id. *)
Lemma project_without_id_resolves_to_None_witness :
  let env :=
    {| urlparse_hostname := urlparse_hostname (sample_env []);
       get_projects _ _ := inr [Project None (Some "Lab")];
       get_nodes := get_nodes (sample_env []);
       evaluator _ := None |} in
  given (project_name sample_opts) "Lab"
  ∧ requests (parse env sample_opts "gns3.yml" true empty_world).1
    = [ "http://gns3.example.com:3080/v2/projects";
        "http://gns3.example.com:3080/v2/projects/None/nodes" ].
Proof.
  intros env.
  assert (given (project_name sample_opts) "Lab") as Hname
    by (split; [reflexivity|discriminate]).
  split; [exact Hname|].
  refine (proj2 (project_without_id_resolves_to_None env sample_opts "gns3.yml"
            true empty_world [Project None (Some "Lab")] [] []
            (Project None (Some "Lab")) "Lab" _ _ Hname _ _ _ _ _)).
  - right. reflexivity.
  - reflexivity.
  - reflexivity.
  - reflexivity.
  - reflexivity.
  - intros q Hq. by apply elem_of_nil in Hq.
  - reflexivity.
Defined.

Lemma rstrip_slash_slashes s k : rstrip_slash (s +:+ slashes k) = rstrip_slash s.
Proof.
  induction s as [|c s IH].
  - induction k as [|k IHk]; [done|].
    change (rstrip_slash (String "/" (slashes k)) = "").
    cbn [rstrip_slash]. change ("" +:+ slashes k) with (slashes k) in IHk.
    by rewrite IHk.
  - change (rstrip_slash (String c (s +:+ slashes k)) = rstrip_slash (String c s)).
    cbn [rstrip_slash]. by rewrite IH.
Qed.

Lemma for_nodes_with_url env u opts pid ch nodes seen w :
  for_nodes env (with_url u opts) pid ch nodes seen w
  = for_nodes env opts pid ch nodes seen w.
Proof.
  revert seen w. induction nodes as [|n rest IH]; intros seen w; [done|].
  rewrite !for_nodes_cons.
  change (process_node env (with_url u opts) pid ch n seen w)
    with (process_node env opts pid ch n seen w).
  destruct (process_node env opts pid ch n seen w) as [w1 [e|seen1]]; [done|].
  apply IH.
Qed.

(** X4. Slashes at the end of the configured [url] change nothing: the run
    is the same, request for request and call for call. *)
Theorem trailing_slashes_irrelevant
    (env : collaborators) (opts : options) (k : nat) (cache_key : string)
    (cache : bool) (w : world) :
  parse env (with_url (url opts +:+ slashes k) opts) cache_key cache w
  = parse env opts cache_key cache w.
Proof.
  rewrite !parse_run. unfold fetch.
  cbn [url with_url project_id project_name validate_certs cache_option group].
  rewrite rstrip_slash_slashes.
  destruct (_ ≫= _) as [w1 [e|payload]]; [done|].
  cbv zeta. by rewrite for_nodes_with_url.
Qed.

(** What the fetch stage does to requests and cache, by cases. *)
Lemma fetch_effects env opts cache_key use_cache w :
  let wf := (fetch env opts cache_key use_cache w).1 in
  (use_cache = true ∧ is_Some (_cache w !! cache_key)
   ∧ requests wf = requests w ∧ _cache wf = _cache w)
  ∨ ((use_cache = false ∨ _cache w !! cache_key = None)
     ∧ ((requests wf = requests w ++ [projects_url opts] ∧ _cache wf = _cache w)
        ∨ ∃ pid,
            requests wf = requests w ++ [projects_url opts; nodes_url opts pid]
            ∧ (_cache wf = _cache w
               ∨ ∃ nodes,
                   use_cache = true
                   ∧ get_nodes env (nodes_url opts pid) (validate_certs opts)
                     = inr nodes
                   ∧ _cache wf = <[cache_key := Source pid nodes]> (_cache w)))).
Proof.
  intros wf. subst wf.
  assert (use_cache = true ∧ is_Some (_cache w !! cache_key)
          ∨ (use_cache = false ∨ _cache w !! cache_key = None)) as [[-> Hhit]|Hmiss].
  { destruct use_cache; [|auto]. destruct (_cache w !! cache_key); eauto. }
  - left. destruct Hhit as [payload Hhit].
    rewrite (fetch_cached _ _ _ _ _ Hhit). eauto.
  - right. split; [done|]. rewrite (fetch_remote _ _ _ _ _ Hmiss). cbv zeta.
    fold (projects_url opts).
    destruct (get_projects env _ _) as [cause|projects]; [by left|].
    destruct (_find_project_id projects _ _) as [e|pid]; [by left|].
    fold (nodes_url opts pid). right. exists pid.
    destruct (get_nodes env _ _) as [cause|nodes] eqn:Hnodes; simpl.
    + split; [done|by left].
    + split; [done|]. destruct use_cache; [right; by exists nodes|by left].
Qed.

(** X5. A run makes at most two requests, the project list and then the
    node list of one project, each once, after those made before: none
    when it uses a cached payload, at least the project list otherwise. *)
Theorem run_requests_at_most_two
    (env : collaborators) (opts : options) (cache_key : string)
    (cache : bool) (w : world) :
  let asked := requests (parse env opts cache_key cache w).1 in
  let use_cache := cache && cache_option opts in
  (use_cache = true ∧ is_Some (_cache w !! cache_key) ∧ asked = requests w)
  ∨ ((use_cache = false ∨ _cache w !! cache_key = None)
     ∧ (asked = requests w ++ [projects_url opts]
        ∨ ∃ pid, asked = requests w ++ [projects_url opts; nodes_url opts pid])).
Proof.
  intros asked use_cache. subst asked use_cache.
  destruct (parse_frame env opts cache_key cache w) as [-> _].
  destruct (fetch_effects env opts cache_key (cache && cache_option opts) w)
    as [(Hu & Hhit & Hr & _)|[Hmiss [[Hr _]|(pid & Hr & _)]]].
  - left. auto.
  - right. split; [done|]. by left.
  - right. split; [done|]. right. by exists pid.
Qed.

(** X6. A run leaves every cache entry under another key as it was, and
    the whole cache as it was when caching is off or a payload is cached
    under its key; the only change it makes is to store under its key the
    payload it fetched. *)
Theorem run_cache_discipline
    (env : collaborators) (opts : options) (cache_key : string)
    (cache : bool) (w : world) :
  let after := _cache (parse env opts cache_key cache w).1 in
  let use_cache := cache && cache_option opts in
  (∀ k, k ≠ cache_key → after !! k = _cache w !! k)
  ∧ (use_cache = false ∨ is_Some (_cache w !! cache_key) → after = _cache w)
  ∧ (after = _cache w
     ∨ ∃ pid nodes,
         get_nodes env (nodes_url opts pid) (validate_certs opts) = inr nodes
         ∧ after = <[cache_key := Source pid nodes]> (_cache w)).
Proof.
  intros after use_cache. subst after use_cache.
  destruct (parse_frame env opts cache_key cache w) as [_ ->].
  destruct (fetch_effects env opts cache_key (cache && cache_option opts) w)
    as [(Hu & Hhit & _ & ->)
       |[Hmiss [[_ ->]|(pid & _ & [->|(nodes & Hu & Hnodes & ->)])]]];
    try (split; [done|]; split; [done|by left]).
  split; [|split].
  - intros k Hk. by rewrite lookup_insert_ne.
  - intros [Hoff|[payload Hhit]]; [congruence|].
    destruct Hmiss as [Hoff|Hnone]; congruence.
  - right. by exists pid, nodes.
Qed.

(** X7. With caching off a run does not read the cache: whatever the cache
    holds, the requests, the inventory calls and the outcome are the
    same. *)
Theorem caching_off_ignores_cache
    (env : collaborators) (opts : options) (cache_key : string)
    (cache : bool) (rq : list string) (c c' : gmap string source)
    (inv : list inv_event) :
  cache && cache_option opts = false →
  parse env opts cache_key cache (World rq c' inv) =
    let res := parse env opts cache_key cache (World rq c inv) in
    (World (requests res.1) c' (inventory res.1), res.2).
Proof.
  intros Hoff. rewrite !parse_run, Hoff.
  rewrite !fetch_remote by (by left). cbv zeta. cbn [requests _cache inventory].
  destruct (get_projects env _ _) as [cause|projects]; [done|].
  destruct (_find_project_id projects _ _) as [e|pid]; [done|].
  destruct (get_nodes env _ _) as [cause|nodes]; [done|].
  cbn [requests _cache inventory source_project_id source_nodes].
  match goal with
  |- context [for_nodes ?e ?o ?p ?ch ?ns ?s (World ?r c' ?i)] =>
    rewrite (for_nodes_same e e o p ch ns s (World r c i) (World r c' i)
               eq_refl eq_refl);
    pose proof (for_nodes_frame e o p ch ns s (World r c i)) as (Hr & _ & _);
    destruct (for_nodes e o p ch ns s (World r c i)) as [w3 [e'|seen']]
  end; cbn in *; by rewrite Hr.
Qed.

(** X7, witness: the sample run with caching off, on a cache that holds
    another payload under the key. *)
Lemma caching_off_ignores_cache_witness :
  let stale : gmap string source := {[ "gns3.yml" := Source (Some "p0") [] ]} in
  false && cache_option sample_opts = false
  ∧ inventory (parse (sample_env [R1]) sample_opts "gns3.yml" false
                 (World [] stale [])).1
    = inventory (parse (sample_env [R1]) sample_opts "gns3.yml" false
                   empty_world).1.
Proof.
  intros stale. split; [reflexivity|].
  rewrite (caching_off_ignores_cache (sample_env [R1]) sample_opts "gns3.yml"
             false [] ∅ stale [] eq_refl).
  vm_compute. reflexivity.
Defined.

(** X8. With caching on, once the fetch stage has passed the cache holds
    under the key the payload the inventory is built from, also when the
    evaluator then stops the run. *)
Theorem payload_cached_before_mapping
    (env : collaborators) (opts : options) (cache_key : string)
    (w wf : world) (payload : source) :
  cache_option opts = true →
  fetch env opts cache_key true w = (wf, inr payload) →
  _cache (parse env opts cache_key true w).1 !! cache_key = Some payload.
Proof.
  intros Hopt Hfetch.
  destruct (parse_frame env opts cache_key true w) as [_ ->].
  rewrite Hopt. cbn [andb]. rewrite Hfetch. cbn [fst].
  by apply (fetch_leaves_payload _ _ _ _ _ _ Hfetch).
Qed.

(** X8, witness: the sample run stopped by the evaluator at its first
    host. *)
Lemma payload_cached_before_mapping_witness :
  let env := raising (sample_env [R1]) in
  (parse env sample_opts "gns3.yml" true empty_world).2
    = inl (evaluation_error (PyException "'gns3_role' is undefined"))
  ∧ _cache (parse env sample_opts "gns3.yml" true empty_world).1 !! "gns3.yml"
    = Some (Source (Some "p1") [R1]).
Proof.
  intros env. split; [by vm_compute|].
  refine (payload_cached_before_mapping env sample_opts "gns3.yml" empty_world
            (fetch env sample_opts "gns3.yml" true empty_world).1
            (Source (Some "p1") [R1]) _ _).
  - reflexivity.
  - vm_compute. reflexivity.
Defined.

(** ** The identifiers of a run *)

Section LoopIdentifiers.
Variable env : collaborators.
Variables (opts : options) (pid : option string) (controller_host : string).

(** The hosts the loop adds are the identifiers, up to where it stopped. *)
Lemma for_nodes_identifiers nodes seen w :
  let res := for_nodes env opts pid controller_host nodes seen w in
  ∃ hs,
    added_hosts (inventory res.1) = added_hosts (inventory w) ++ hs
    ∧ hs `prefix_of` identifiers (host_naming opts) nodes seen
    ∧ (∀ seen', res.2 = inr seen' →
       hs = identifiers (host_naming opts) nodes seen).
Proof.
  revert seen w. induction nodes as [|n rest IH]; intros seen w res.
  { exists []. subst res. simpl. rewrite app_nil_r. done. }
  subst res. rewrite for_nodes_cons. cbn [identifiers].
  pose proof (process_node_cases env opts pid controller_host n seen w) as Hn.
  destruct (nonempty (candidate (host_naming opts) n)) as [c|].
  - destruct Hn as (hooks & r & -> & Hp & Hr).
    set (host := dedup seen c n) in *.
    assert (∀ inv, added_hosts
              (inv ++ mapped_events opts pid controller_host host n ++ hooks)
            = added_hosts inv ++ [host]) as Hadd.
    { intros inv. rewrite !added_hosts_app, added_hosts_mapped.
      by rewrite (added_hosts_hooks _ _ _ Hp). }
    destruct Hr as [[-> _]|[e ->]].
    + match goal with |- context [for_nodes _ _ _ _ _ ?s ?w1] =>
        destruct (IH s w1) as (hs & Hhs & Hpre & Hdone) end.
      cbn [inventory] in Hhs. rewrite Hadd in Hhs.
      exists (host :: hs). split; [by rewrite Hhs, <- app_assoc|]. split.
      * by apply prefix_cons.
      * intros seen' Hseen'. by rewrite (Hdone seen' Hseen').
    + exists [host]. cbn [fst snd inventory]. split; [by apply Hadd|]. split.
      * apply prefix_cons, prefix_nil.
      * intros seen' [=].
  - rewrite Hn. apply IH.
Qed.
End LoopIdentifiers.

(** The hosts of a whole run on a fresh inventory. *)
Lemma parse_hosts env opts cache_key cache w w1 payload :
  inventory w = [] →
  fetch env opts cache_key (cache && cache_option opts) w = (w1, inr payload) →
  let res := parse env opts cache_key cache w in
  let hosts := added_hosts (inventory res.1) in
  let ids := identifiers (host_naming opts) (source_nodes payload) ∅ in
  hosts `prefix_of` ids ∧ (res.2 = inr () → hosts = ids).
Proof.
  intros Hw Hfetch res hosts ids. subst res hosts ids.
  pose proof (fetch_frame env opts cache_key (cache && cache_option opts) w)
    as Hfr.
  rewrite parse_run, Hfetch. rewrite Hfetch in Hfr. simpl in Hfr. cbv zeta.
  match goal with |- context [for_nodes ?e ?o ?p ?ch ?ns ?s ?w2] =>
    destruct (for_nodes_identifiers e o p ch ns s w2) as (hs & Hhs & Hpre & Hdone);
    destruct (for_nodes e o p ch ns s w2) as [w3 r]
  end.
  simpl in Hhs, Hdone. rewrite Hfr, Hw in Hhs. simpl in Hhs.
  destruct r as [e|seen']; simpl; rewrite Hhs.
  - done.
  - split; [done|]. intros _. by apply (Hdone seen').
Qed.

Lemma suffix_length n : (String.length (suffix n) ≤ 6)%nat.
Proof.
  unfold suffix. destruct (truthy (node_id n)); [|simpl; lia].
  destruct (slice_last_spec 6 (or_empty (node_id n))) as (_ & _ & ->). lia.
Qed.

Lemma dedup_cases seen c n :
  dedup seen c n = c
  ∨ ∃ s, dedup seen c n = c +:+ "_" +:+ s ∧ (String.length s ≤ 6)%nat.
Proof.
  unfold dedup. case_bool_decide; [right|by left].
  exists (suffix n). split; [done|apply suffix_length].
Qed.

(** Identifier by identifier, against the candidates. *)
Lemma identifiers_candidates hn nodes seen :
  Forall2 (λ h c, c ≠ "" ∧ (h = c ∨ ∃ s, h = c +:+ "_" +:+ s
                                        ∧ (String.length s ≤ 6)%nat))
    (identifiers hn nodes seen) (candidates hn nodes).
Proof.
  revert seen. induction nodes as [|n rest IH]; intros seen; [constructor|].
  unfold candidates in *. cbn [identifiers omap list_omap].
  destruct (nonempty (candidate hn n)) as [c|] eqn:Hc; [|apply IH].
  constructor; [|apply IH].
  split; [by apply nonempty_Some in Hc as [_ ?]|apply dedup_cases].
Qed.

(** X9. The hosts of a run come from the nodes that have an identifier, in
    node order and one each: the i-th host added is the i-th candidate,
    never empty, or that candidate followed by an underscore and at most 6
    characters; a run that completes adds as many hosts as there are such
    nodes. *)
Theorem hosts_follow_candidates
    (env : collaborators) (opts : options) (cache_key : string)
    (cache : bool) (w w1 : world) (payload : source) :
  inventory w = [] →
  fetch env opts cache_key (cache && cache_option opts) w = (w1, inr payload) →
  let res := parse env opts cache_key cache w in
  let hosts := added_hosts (inventory res.1) in
  let cands := candidates (host_naming opts) (source_nodes payload) in
  (∀ i h, hosts !! i = Some h →
     h ≠ ""
     ∧ ∃ c, cands !! i = Some c
            ∧ (h = c ∨ ∃ s, h = c +:+ "_" +:+ s ∧ (String.length s ≤ 6)%nat))
  ∧ (length hosts ≤ length cands)%nat
  ∧ (res.2 = inr () → length hosts = length cands).
Proof.
  intros Hw Hfetch res hosts cands.
  destruct (parse_hosts env opts cache_key cache w w1 payload Hw Hfetch)
    as [Hpre Hdone]. fold res in Hpre, Hdone. fold hosts in Hpre, Hdone.
  pose proof (identifiers_candidates (host_naming opts) (source_nodes payload) ∅)
    as Hall. fold cands in Hall.
  pose proof (Forall2_length _ _ _ Hall) as Hlen.
  split; [|split].
  - intros i h Hi.
    assert (identifiers (host_naming opts) (source_nodes payload) ∅ !! i = Some h)
      as Hid by (by eapply prefix_lookup_Some).
    destruct (Forall2_lookup_l _ _ _ _ _ Hall Hid) as (c & Hc & Hne & Hcases).
    split; [|by exists c].
    destruct Hcases as [->|(s & -> & _)]; [done|]. by destruct c.
  - rewrite <- Hlen. by apply prefix_length.
  - intros Hok. by rewrite (Hdone Hok).
Qed.

(** X9, witness: two routers named [R1] and a node without identifier. *)
Lemma hosts_follow_candidates_witness :
  let blank := with_console JNull
    {| node_id := None; node_name := Some ""; node_type := None;
       status := JNull; console_type := JNull; console_host := None;
       console := JNull |} in
  let nodes := [ R1; blank; router "R1" "5d1c-42a7f0" ] in
  let hosts :=
    added_hosts (inventory
      (parse (sample_env nodes) sample_opts "gns3.yml" true empty_world).1) in
  candidates (host_naming sample_opts) nodes = [ "R1"; "R1" ]
  ∧ length hosts = 2.
Proof.
  intros blank nodes hosts. split; [reflexivity|].
  refine (proj2 (proj2 (hosts_follow_candidates (sample_env nodes) sample_opts
            "gns3.yml" true empty_world
            (fetch (sample_env nodes) sample_opts "gns3.yml" true empty_world).1
            (Source (Some "p1") nodes) _ _)) _).
  - reflexivity.
  - vm_compute. reflexivity.
  - vm_compute. reflexivity.
Defined.

Lemma identifiers_distinct hn nodes seen :
  NoDup (candidates hn nodes) →
  (∀ c, c ∈ candidates hn nodes → c ∉ seen) →
  identifiers hn nodes seen = candidates hn nodes.
Proof.
  revert seen. induction nodes as [|n rest IH]; intros seen Hnd Hfresh; [done|].
  unfold candidates in *. cbn [identifiers omap list_omap] in *.
  destruct (nonempty (candidate hn n)) as [c|]; [|by apply IH].
  apply NoDup_cons in Hnd as [Hc Hnd].
  assert (dedup seen c n = c) as ->.
  { unfold dedup. rewrite bool_decide_false; [done|]. apply Hfresh. left. }
  f_equal. apply IH; [done|].
  intros c' Hc'. assert (c' ∉ seen) by (apply Hfresh; by right).
  assert (c' ≠ c) by (by intros ->). set_solver.
Qed.

(** X10. When the candidates of the nodes are pairwise distinct no
    identifier is ever suffixed: the hosts a run adds are the candidates
    themselves, in node order, all of them when the run completes. *)
Theorem distinct_candidates_are_kept
    (env : collaborators) (opts : options) (cache_key : string)
    (cache : bool) (w w1 : world) (payload : source) :
  inventory w = [] →
  fetch env opts cache_key (cache && cache_option opts) w = (w1, inr payload) →
  NoDup (candidates (host_naming opts) (source_nodes payload)) →
  let res := parse env opts cache_key cache w in
  let hosts := added_hosts (inventory res.1) in
  hosts `prefix_of` candidates (host_naming opts) (source_nodes payload)
  ∧ (res.2 = inr () →
     hosts = candidates (host_naming opts) (source_nodes payload)).
Proof.
  intros Hw Hfetch Hnd res hosts.
  rewrite <- (identifiers_distinct _ _ ∅ Hnd) by set_solver.
  by apply (parse_hosts env opts cache_key cache w w1 payload).
Qed.

(** X10, witness: routers [R1] and [R2]. *)
Lemma distinct_candidates_are_kept_witness :
  let nodes := [ R1; router "R2" "n2" ] in
  NoDup (candidates (host_naming sample_opts) nodes)
  ∧ added_hosts (inventory
      (parse (sample_env nodes) sample_opts "gns3.yml" true empty_world).1)
    = [ "R1"; "R2" ].
Proof.
  intros nodes.
  assert (NoDup (candidates (host_naming sample_opts) nodes)) as Hnd.
  { change (NoDup ["R1"; "R2"]). apply NoDup_cons. split.
    - intros Hin. apply list_elem_of_singleton in Hin. discriminate Hin.
    - apply NoDup_singleton. }
  split; [exact Hnd|].
  refine (proj2 (distinct_candidates_are_kept (sample_env nodes) sample_opts
            "gns3.yml" true empty_world
            (fetch (sample_env nodes) sample_opts "gns3.yml" true empty_world).1
            (Source (Some "p1") nodes) _ _ Hnd) _).
  - reflexivity.
  - vm_compute. reflexivity.
  - vm_compute. reflexivity.
Defined.

Lemma append_underscore_neq c s : c +:+ "_" +:+ s ≠ c.
Proof.
  intros H. apply (f_equal String.length) in H.
  rewrite !length_append in H. simpl in H. lia.
Qed.

Lemma dedup_singleton x c n : dedup {[ x ]} c n ≠ x.
Proof.
  unfold dedup. case_bool_decide as Hc.
  - apply elem_of_singleton in Hc as ->. apply append_underscore_neq.
  - intros ->. apply Hc. by apply elem_of_singleton.
Qed.

Lemma candidates_cons hn n rest :
  candidates hn (n :: rest) =
    match nonempty (candidate hn n) with
    | Some c => c :: candidates hn rest
    | None => candidates hn rest
    end.
Proof. reflexivity. Qed.

Lemma identifiers_second hn nodes x :
  (length (candidates hn nodes) ≤ 1)%nat →
  NoDup (identifiers hn nodes {[ x ]}) ∧ x ∉ identifiers hn nodes {[ x ]}.
Proof.
  induction nodes as [|n rest IH]; intros Hlen.
  { split; [constructor|apply not_elem_of_nil]. }
  rewrite candidates_cons in Hlen. cbn [identifiers].
  destruct (nonempty (candidate hn n)) as [c|]; [|by apply IH].
  simpl in Hlen.
  pose proof (identifiers_candidates hn rest ({[x]} ∪ {[dedup {[x]} c n]}))
    as Hall.
  apply Forall2_length in Hall.
  rewrite (nil_length_inv (identifiers hn rest _)) by lia.
  split; [apply NoDup_singleton|].
  intros Hin%list_elem_of_singleton. by eapply dedup_singleton.
Qed.

Lemma identifiers_two hn nodes :
  (length (candidates hn nodes) ≤ 2)%nat → NoDup (identifiers hn nodes ∅).
Proof.
  induction nodes as [|n rest IH]; intros Hlen; [constructor|].
  rewrite candidates_cons in Hlen. cbn [identifiers].
  destruct (nonempty (candidate hn n)) as [c|]; [|by apply IH].
  simpl in Hlen.
  assert (dedup ∅ c n = c) as ->.
  { unfold dedup. by rewrite bool_decide_false by set_solver. }
  rewrite (left_id_L ∅ (∪)).
  destruct (identifiers_second hn rest c) as [Hnd Hc]; [lia|].
  by apply NoDup_cons.
Qed.

(** X11. A run over at most two nodes that have an identifier never gives
    two hosts the same identifier: a suffixed identifier differs from its
    candidate, so a repeated identifier takes three such nodes. *)
Theorem two_hosts_never_collide
    (env : collaborators) (opts : options) (cache_key : string)
    (cache : bool) (w w1 : world) (payload : source) :
  inventory w = [] →
  fetch env opts cache_key (cache && cache_option opts) w = (w1, inr payload) →
  (length (candidates (host_naming opts) (source_nodes payload)) ≤ 2)%nat →
  NoDup (added_hosts (inventory (parse env opts cache_key cache w).1)).
Proof.
  intros Hw Hfetch Hlen.
  destruct (parse_hosts env opts cache_key cache w w1 payload Hw Hfetch)
    as [[k Hk] _].
  pose proof (identifiers_two _ _ Hlen) as Hnd.
  rewrite Hk in Hnd. by apply NoDup_app in Hnd as [? _].
Qed.

(** X11, witness: two routers with the same name and the same node id. *)
Lemma two_hosts_never_collide_witness :
  let nodes := [ R1; R1 ] in
  (length (candidates (host_naming sample_opts) nodes) ≤ 2)%nat
  ∧ NoDup (added_hosts (inventory
             (parse (sample_env nodes) sample_opts "gns3.yml" true
                empty_world).1)).
Proof.
  intros nodes.
  assert (length (candidates (host_naming sample_opts) nodes) ≤ 2)%nat as Hlen
    by (change (2 ≤ 2)%nat; lia).
  split; [exact Hlen|].
  refine (two_hosts_never_collide (sample_env nodes) sample_opts "gns3.yml"
            true empty_world
            (fetch (sample_env nodes) sample_opts "gns3.yml" true empty_world).1
            (Source (Some "p1") nodes) _ _ Hlen).
  - reflexivity.
  - vm_compute. reflexivity.
Defined.

(** ** Identifiers that stay distinct *)

Lemma suffixed_forms_cons hn n rest :
  suffixed_forms hn (n :: rest) =
    match nonempty (candidate hn n) with
    | Some c => (c +:+ "_" +:+ suffix n) :: suffixed_forms hn rest
    | None => suffixed_forms hn rest
    end.
Proof.
  unfold suffixed_forms. cbn [omap list_omap].
  by destruct (nonempty (candidate hn n)).
Qed.

(** The loop entered with a used-set that holds none of the suffixed forms
    of its nodes forms distinct identifiers, none of them used before. *)
Lemma identifiers_NoDup hn nodes seen :
  NoDup (suffixed_forms hn nodes) →
  (∀ s, s ∈ suffixed_forms hn nodes → s ∉ candidates hn nodes) →
  (∀ s, s ∈ suffixed_forms hn nodes → s ∉ seen) →
  NoDup (identifiers hn nodes seen)
  ∧ ∀ h, h ∈ identifiers hn nodes seen → h ∉ seen.
Proof.
  revert seen. induction nodes as [|n rest IH]; intros seen Hnd Hcand Hseen.
  { split; [constructor|by intros h ?%elem_of_nil]. }
  rewrite suffixed_forms_cons in Hnd, Hseen, Hcand.
  rewrite candidates_cons in Hcand. cbn [identifiers].
  destruct (nonempty (candidate hn n)) as [c|]; [|by apply IH].
  apply NoDup_cons in Hnd as [Hfresh Hnd].
  set (h := dedup seen c n).
  assert (h ∉ seen) as Hh.
  { unfold h, dedup. case_bool_decide; [|done]. apply Hseen. left. }
  assert (h ∉ suffixed_forms hn rest) as Hhs.
  { unfold h, dedup. case_bool_decide; [done|].
    intros Hin. apply (Hcand c); [by right|left]. }
  destruct (IH (seen ∪ {[ h ]})) as [Hnd' Hout].
  - done.
  - intros s Hs Hc. apply (Hcand s); by right.
  - intros s Hs. apply not_elem_of_union. split; [apply Hseen; by right|].
    intros Heq%elem_of_singleton. by subst s.
  - split.
    + apply NoDup_cons. split; [|done].
      intros Hin%Hout. apply Hin, elem_of_union. right. by apply elem_of_singleton.
    + intros h' [->|Hin%Hout]%elem_of_cons; [done|].
      intros Hin'. apply Hin, elem_of_union. by left.
Qed.

(** C3, as the code has it.  A node whose candidate is already used is
    given its suffixed form, the candidate followed by an underscore and
    the last 6 characters of its node id (or [dup]), and that identifier
    is not checked again.  So the identifiers of the hosts a run adds are
    pairwise distinct provided that, among the nodes of the payload, the
    suffixed forms are pairwise distinct and none of them is the candidate
    of a node. *)
Theorem distinct_suffixed_forms_give_distinct_hosts
    (env : collaborators) (opts : options) (cache_key : string)
    (cache : bool) (w w1 : world) (payload : source) :
  inventory w = [] →
  fetch env opts cache_key (cache && cache_option opts) w = (w1, inr payload) →
  let nodes := source_nodes payload in
  NoDup (suffixed_forms (host_naming opts) nodes) →
  (∀ s, s ∈ suffixed_forms (host_naming opts) nodes →
        s ∉ candidates (host_naming opts) nodes) →
  NoDup (added_hosts (inventory (parse env opts cache_key cache w).1)).
Proof.
  intros Hw Hfetch nodes Hnd Hcand.
  destruct (parse_hosts env opts cache_key cache w w1 payload Hw Hfetch)
    as [[k Hk] _].
  destruct (identifiers_NoDup (host_naming opts) nodes ∅ Hnd Hcand) as [Hids _];
    [intros s _; apply not_elem_of_empty|].
  subst nodes. rewrite Hk in Hids. by apply NoDup_app in Hids as [? _].
Qed.

(** C3, witness: three routers named [R1] with node ids that end
    differently; the hosts are [R1], [R1_n2] and [R1_n3]. *)
Lemma distinct_suffixed_forms_give_distinct_hosts_witness :
  let nodes := [ router "R1" "n1"; router "R1" "n2"; router "R1" "n3" ] in
  let hosts :=
    added_hosts (inventory
      (parse (sample_env nodes) sample_opts "gns3.yml" true empty_world).1) in
  NoDup (suffixed_forms (host_naming sample_opts) nodes)
  ∧ hosts = [ "R1"; "R1_n2"; "R1_n3" ]
  ∧ NoDup hosts.
Proof.
  intros nodes hosts.
  assert (NoDup (suffixed_forms (host_naming sample_opts) nodes)) as Hnd.
  { apply (bool_decide_unpack _). vm_compute. exact I. }
  assert (∀ s, s ∈ suffixed_forms (host_naming sample_opts) nodes →
               s ∉ candidates (host_naming sample_opts) nodes) as Hcand.
  { apply Forall_forall. apply (bool_decide_unpack _). vm_compute. exact I. }
  split; [exact Hnd|]. split; [vm_compute; reflexivity|].
  refine (distinct_suffixed_forms_give_distinct_hosts (sample_env nodes)
            sample_opts "gns3.yml" true empty_world
            (fetch (sample_env nodes) sample_opts "gns3.yml" true empty_world).1
            (Source (Some "p1") nodes) _ _ Hnd Hcand).
  - reflexivity.
  - vm_compute. reflexivity.
Defined.

(** ** The order of the inventory calls *)

Lemma calls_in_order_host_vars G H pid ch off host n rest :
  host ∈ H →
  calls_in_order G H (host_vars pid ch off host n ++ rest)
  = calls_in_order G H rest.
Proof.
  intros Hh. unfold host_vars.
  destruct (isinstance_int (console n)); cbn [app calls_in_order];
    by rewrite !bool_decide_true by done.
Qed.

Lemma calls_in_order_type_group G H flag host n rest :
  host ∈ H →
  ∃ G', G ⊆ G'
    ∧ calls_in_order G H (type_group flag host n ++ rest)
      = calls_in_order G' H rest.
Proof.
  intros Hh. unfold type_group. destruct (flag && truthy (node_type n)).
  - exists (G ∪ {[ "gns3_type_" +:+ fmt (node_type n) ]}).
    split; [set_solver|]. cbn [app calls_in_order].
    by rewrite !bool_decide_true by set_solver.
  - by exists G.
Qed.

Lemma calls_in_order_hooks G H hooks host strict rest :
  hooks `prefix_of` hook_events host strict → host ∈ H →
  calls_in_order G H (hooks ++ rest) = calls_in_order G H rest.
Proof.
  intros Hp Hh.
  assert (Forall (λ e, ∃ h, e = constructed h host strict) hooks) as Hall.
  { apply Forall_forall. intros e. by apply hooks_constructed. }
  clear Hp. induction Hall as [|e hooks [h ->] _ IH]; [done|].
  cbn [app calls_in_order]. by rewrite bool_decide_true by done.
Qed.

Lemma iterations_calls_in_order opts pid ch nodes evs :
  iterations opts pid ch nodes evs →
  ∀ G H, group opts ∈ G → calls_in_order G H evs = true.
Proof.
  induction 1 as [|host n hooks rest Hn Hp Hrest IH]; intros G H HG; [done|].
  unfold mapped_events. rewrite <- app_comm_cons. cbn [calls_in_order].
  rewrite bool_decide_true by done. cbn [andb].
  rewrite <- app_assoc, calls_in_order_host_vars by set_solver.
  destruct (calls_in_order_type_group G (H ∪ {[host]})
              (group_by_node_type opts) host n (hooks ++ rest))
    as (G' & HG' & ->); [set_solver|].
  rewrite (calls_in_order_hooks _ _ _ _ _ _ Hp) by set_solver.
  apply IH. set_solver.
Qed.

(** X12. On a fresh inventory every call of a run names only what the
    calls before it made: the parent group is created before a host is
    added to it, a type group before a host is put in it, and a variable
    is set, a host grouped by type and the evaluator called only for a host
    already added.  This holds as well for a run the evaluator stopped. *)
Theorem inventory_calls_in_order
    (env : collaborators) (opts : options) (cache_key : string)
    (cache : bool) (w : world) :
  inventory w = [] →
  calls_in_order ∅ ∅ (inventory (parse env opts cache_key cache w).1) = true.
Proof.
  intros Hw.
  destruct (parse_events env opts cache_key cache w Hw)
    as [->|(w1 & payload & rest & _ & -> & Hit)]; [done|].
  cbn [calls_in_order].
  apply (iterations_calls_in_order _ _ _ _ _ Hit). set_solver.
Qed.

(** X12, witness: two routers of the same name, with an evaluator that
    raises at its first call. *)
Lemma inventory_calls_in_order_witness :
  inventory empty_world = []
  ∧ calls_in_order ∅ ∅
      (inventory (parse (raising (sample_env [R1; R1])) sample_opts "gns3.yml"
                    true empty_world).1) = true.
Proof.
  split; [reflexivity|].
  apply (inventory_calls_in_order (raising (sample_env [R1; R1])) sample_opts
           "gns3.yml" true empty_world).
  reflexivity.
Defined.

(** ** The variables of a run *)

(** A [set_variable] call of the loop is one of the calls that map some
    node to the host it names. *)
Lemma iterations_set_variable opts pid ch nodes evs h k v :
  iterations opts pid ch nodes evs → set_variable h k v ∈ evs →
  ∃ n, n ∈ nodes
    ∧ set_variable h k v
        ∈ host_vars pid ch (default 0%Z (port_offset opts)) h n.
Proof.
  induction 1 as [|host n hooks rest Hn Hp Hrest IH]; [by intros ?%elem_of_nil|].
  intros He. apply elem_of_app in He as [He|He].
  - unfold mapped_events in He. apply elem_of_cons in He as [?|He]; [done|].
    apply elem_of_app in He as [He|He].
    + pose proof (host_vars_set_variable _ _ _ _ _ _ He) as (k' & v' & Heq).
      injection Heq as -> _ _. by exists n.
    + apply type_group_event in He as (_ & t & _ & [?|?]); done.
  - apply elem_of_app in He as [He|He]; [|by apply IH].
    by apply (hooks_constructed _ _ _ _ Hp) in He as [? ?].
Qed.

(** The calls that map a node are all made, whatever the evaluator does
    then. *)
Lemma iterations_add_host opts pid ch nodes evs h g :
  iterations opts pid ch nodes evs → add_host h g ∈ evs →
  ∃ n, n ∈ nodes
    ∧ ∀ e, e ∈ host_vars pid ch (default 0%Z (port_offset opts)) h n → e ∈ evs.
Proof.
  induction 1 as [|host n hooks rest Hn Hp Hrest IH]; [by intros ?%elem_of_nil|].
  intros He. apply elem_of_app in He as [He|He].
  - unfold mapped_events in He. apply elem_of_cons in He as [[= -> _]|He].
    + exists n. split; [done|]. intros e Hin. apply elem_of_app. left.
      unfold mapped_events. right. apply elem_of_app. by left.
    + apply elem_of_app in He as [He|He].
      * by apply host_vars_set_variable in He as (? & ? & ?).
      * apply type_group_event in He as (_ & t & _ & [?|?]); done.
  - apply elem_of_app in He as [He|He].
    + by apply (hooks_constructed _ _ _ _ Hp) in He as [? ?].
    + destruct (IH He) as (n' & Hn' & Hall). exists n'. split; [done|].
      intros e Hin. apply elem_of_app. right. apply elem_of_app. right.
      by apply Hall.
Qed.

Ltac host_vars_cases He :=
  unfold host_vars in He;
  destruct (isinstance_int (console _)) eqn:?; cbn [app] in He;
  repeat (apply elem_of_cons in He as [He|He]; [try discriminate He|]);
  try (by apply elem_of_nil in He).

Lemma host_vars_project_id pid ch off h n v :
  set_variable h "gns3_project_id" v ∈ host_vars pid ch off h n →
  v = of_str pid.
Proof. intros He. host_vars_cases He; by injection He. Qed.

Lemma host_vars_ansible_host_value pid ch off h n v :
  set_variable h "ansible_host" v ∈ host_vars pid ch off h n →
  v = JStr (connection_host ch n).
Proof. intros He. host_vars_cases He; by injection He. Qed.

Lemma host_vars_ansible_port_value pid ch off h n v :
  set_variable h "ansible_port" v ∈ host_vars pid ch off h n →
  ∃ port, isinstance_int (console n) = Some port ∧ v = JInt (port + off).
Proof. intros He. host_vars_cases He. injection He as ->. eauto. Qed.

Lemma connection_host_cases ch n :
  connection_host ch n = ch
  ∨ (console_host n = Some (connection_host ch n)
     ∧ connection_host ch n ≠ ""
     ∧ connection_host ch n ≠ "0.0.0.0" ∧ connection_host ch n ≠ "::").
Proof.
  unfold connection_host.
  destruct (nonempty (console_host n)) as [a|] eqn:Ha.
  - apply nonempty_Some in Ha as [Ha Hne].
    do 2 (case_bool_decide; [by left|]). by right.
  - left. by repeat case_bool_decide.
Qed.

Lemma controller_host_empty env base_url :
  _controller_host_from_url env base_url = "" → base_url = "".
Proof.
  unfold _controller_host_from_url.
  destruct (nonempty (urlparse_hostname env base_url)) as [a|] eqn:Ha; [|done].
  apply nonempty_Some in Ha as [_ Hne]. by intros ->.
Qed.

(** X13. A run has one project id: every [gns3_project_id] it sets, on
    whatever host, is the project id of the payload the fetch stage gave,
    resolved from the options or found in the cache. *)
Theorem project_id_variable_of_a_run
    (env : collaborators) (opts : options) (cache_key : string)
    (cache : bool) (w w1 : world) (payload : source) (h : string) (v : json) :
  inventory w = [] →
  fetch env opts cache_key (cache && cache_option opts) w = (w1, inr payload) →
  set_variable h "gns3_project_id" v
    ∈ inventory (parse env opts cache_key cache w).1 →
  v = of_str (source_project_id payload).
Proof.
  intros Hw Hfetch.
  destruct (parse_events env opts cache_key cache w Hw)
    as [->|(w1' & payload' & rest & Hfetch' & -> & Hit)];
    [by intros ?%elem_of_nil|].
  rewrite Hfetch in Hfetch'. injection Hfetch' as _ <-.
  intros [?|Hin]%elem_of_cons; [done|].
  destruct (iterations_set_variable _ _ _ _ _ _ _ _ Hit Hin) as (n & _ & Hv).
  by apply host_vars_project_id in Hv.
Qed.

(** X13, witness: the sample run; the project [Lab] has the id [p1]. *)
Lemma project_id_variable_of_a_run_witness :
  let run := parse (sample_env [R1]) sample_opts "gns3.yml" true empty_world in
  set_variable "R1" "gns3_project_id" (JStr "p1") ∈ inventory run.1
  ∧ JStr "p1" = of_str (Some "p1").
Proof.
  intros run.
  assert (set_variable "R1" "gns3_project_id" (JStr "p1") ∈ inventory run.1)
    as Hin.
  { vm_compute. do 2 right. left. }
  split; [exact Hin|].
  refine (project_id_variable_of_a_run (sample_env [R1]) sample_opts "gns3.yml"
            true empty_world
            (fetch (sample_env [R1]) sample_opts "gns3.yml" true empty_world).1
            (Source (Some "p1") [R1]) "R1" (JStr "p1") _ _ Hin).
  - reflexivity.
  - vm_compute. reflexivity.
Defined.

(** X14. The connection variables of a run.  An [ansible_host] is always a
    string: the controller host, or the console host of a node of the
    payload, which is then neither empty nor [0.0.0.0] nor [::]; it is
    empty only if the base URL, its trailing slashes removed, is empty.  An
    [ansible_port] is always an integer: the console port of a node of the
    payload that passes [isinstance(console_port, int)], plus the offset. *)
Theorem connection_variables_of_a_run
    (env : collaborators) (opts : options) (cache_key : string)
    (cache : bool) (w : world) :
  inventory w = [] →
  let evs := inventory (parse env opts cache_key cache w).1 in
  let base_url := rstrip_slash (url opts) in
  let controller_host := _controller_host_from_url env base_url in
  let payload_node n :=
    ∃ payload,
      (fetch env opts cache_key (cache && cache_option opts) w).2 = inr payload
      ∧ n ∈ source_nodes payload in
  (∀ h v, set_variable h "ansible_host" v ∈ evs →
     ∃ a, v = JStr a
       ∧ (a = controller_host
          ∨ (a ≠ "" ∧ a ≠ "0.0.0.0" ∧ a ≠ "::"
             ∧ ∃ n, payload_node n ∧ console_host n = Some a))
       ∧ (a = "" → base_url = ""))
  ∧ (∀ h v, set_variable h "ansible_port" v ∈ evs →
     ∃ n port, payload_node n
       ∧ isinstance_int (console n) = Some port
       ∧ v = JInt (port + default 0%Z (port_offset opts))).
Proof.
  intros Hw evs base_url controller_host payload_node.
  subst evs payload_node. cbv beta.
  destruct (parse_events env opts cache_key cache w Hw)
    as [->|(w1 & payload & rest & -> & -> & Hit)];
    [split; by intros h v ?%elem_of_nil|].
  fold base_url in Hit. fold controller_host in Hit. cbn [snd]. split.
  - intros h v [?|Hin]%elem_of_cons; [done|].
    destruct (iterations_set_variable _ _ _ _ _ _ _ _ Hit Hin) as (n & Hn & Hv).
    apply host_vars_ansible_host_value in Hv as ->.
    exists (connection_host controller_host n). split; [done|].
    destruct (connection_host_cases controller_host n)
      as [Hch|(Hcons & Hne & Hw1 & Hw2)].
    + split; [by left|]. rewrite Hch. apply controller_host_empty.
    + split; [|done]. right. do 3 (split; [done|]).
      exists n. split; [|done]. by exists payload.
  - intros h v [?|Hin]%elem_of_cons; [done|].
    destruct (iterations_set_variable _ _ _ _ _ _ _ _ Hit Hin) as (n & Hn & Hv).
    apply host_vars_ansible_port_value in Hv as (port & Hport & ->).
    exists n, port. split; [by exists payload|done].
Qed.

(** X14, witness: the sample run; the wildcard console host of [R1] gives
    way to the controller host and port 5000 becomes 5001. *)
Lemma connection_variables_of_a_run_witness :
  let evs := inventory (parse (sample_env [R1]) sample_opts "gns3.yml" true
                          empty_world).1 in
  set_variable "R1" "ansible_host" (JStr "gns3.example.com") ∈ evs
  ∧ set_variable "R1" "ansible_port" (JInt 5001) ∈ evs
  ∧ ∃ n port, n ∈ [R1] ∧ isinstance_int (console n) = Some port
              ∧ JInt 5001 = JInt (port + 1).
Proof.
  intros evs.
  assert (set_variable "R1" "ansible_port" (JInt 5001) ∈ evs) as Hport.
  { vm_compute. do 11 right. left. }
  split; [vm_compute; do 10 right; left|]. split; [exact Hport|].
  destruct (proj2 (connection_variables_of_a_run (sample_env [R1]) sample_opts
                     "gns3.yml" true empty_world eq_refl) "R1" (JInt 5001) Hport)
    as (n & port & (payload & Hpayload & Hn) & Hint & Hv).
  exists n, port. split; [|done].
  vm_compute in Hpayload. injection Hpayload as <-. exact Hn.
Defined.

(** X15. A host added by a run has its variables, whatever the evaluator
    did after: for some node of the payload the run set on it the eight
    standard variables, from the fields of that node as they came, and
    [ansible_host]. *)
Theorem added_host_has_its_variables
    (env : collaborators) (opts : options) (cache_key : string)
    (cache : bool) (w : world) (h g : string) :
  inventory w = [] →
  let evs := inventory (parse env opts cache_key cache w).1 in
  let controller_host :=
    _controller_host_from_url env (rstrip_slash (url opts)) in
  add_host h g ∈ evs →
  ∃ payload n,
    (fetch env opts cache_key (cache && cache_option opts) w).2 = inr payload
    ∧ n ∈ source_nodes payload
    ∧ set_variable h "gns3_project_id" (of_str (source_project_id payload)) ∈ evs
    ∧ set_variable h "gns3_node_id" (of_str (node_id n)) ∈ evs
    ∧ set_variable h "gns3_node_name" (of_str (node_name n)) ∈ evs
    ∧ set_variable h "gns3_node_type" (of_str (node_type n)) ∈ evs
    ∧ set_variable h "gns3_status" (status n) ∈ evs
    ∧ set_variable h "gns3_console_type" (console_type n) ∈ evs
    ∧ set_variable h "gns3_console_host" (of_str (console_host n)) ∈ evs
    ∧ set_variable h "gns3_console_port" (console n) ∈ evs
    ∧ set_variable h "ansible_host" (JStr (connection_host controller_host n))
        ∈ evs.
Proof.
  intros Hw evs controller_host. subst evs.
  destruct (parse_events env opts cache_key cache w Hw)
    as [->|(w1 & payload & rest & -> & -> & Hit)]; [by intros ?%elem_of_nil|].
  fold controller_host in Hit.
  intros [?|Hin]%elem_of_cons; [done|].
  destruct (iterations_add_host _ _ _ _ _ _ _ Hit Hin) as (n & Hn & Hall).
  exists payload, n. split; [done|]. split; [done|].
  repeat split; right; apply Hall; unfold host_vars; apply elem_of_app;
    try (left; by repeat constructor).
  right. destruct (isinstance_int (console n)); by repeat constructor.
Qed.

(** X15, witness: the sample controller with an evaluator that raises at
    its first call. *)
Lemma added_host_has_its_variables_witness :
  let evs := inventory (parse (raising (sample_env [R1])) sample_opts
                          "gns3.yml" true empty_world).1 in
  add_host "R1" "gns3" ∈ evs
  ∧ ∃ n, set_variable "R1" "gns3_console_port" (console n) ∈ evs
         ∧ set_variable "R1" "ansible_host"
             (JStr (connection_host "gns3.example.com" n)) ∈ evs.
Proof.
  intros evs.
  assert (add_host "R1" "gns3" ∈ evs) as Hadd by (vm_compute; right; left).
  split; [exact Hadd|].
  destruct (added_host_has_its_variables (raising (sample_env [R1])) sample_opts
              "gns3.yml" true empty_world "R1" "gns3" eq_refl Hadd)
    as (payload & n & _ & _ & _ & _ & _ & _ & _ & _ & _ & Hport & Hhost).
  exists n. split; [exact Hport|exact Hhost].
Defined.

(** ** How a run ends *)

Section LoopFailure.
Variable env : collaborators.
Variables (opts : options) (pid : option string) (controller_host : string).

(** An iteration fails only by an evaluator call that raised, which is
    then the last call made. *)
Lemma process_node_failure n seen w w' f :
  process_node env opts pid controller_host n seen w = (w', inl f) →
  ∃ c h host,
    f = evaluation_error c
    ∧ evaluator env (inventory w') = Some c
    ∧ last (inventory w') = Some (constructed h host (strict opts)).
Proof.
  unfold process_node.
  destruct (nonempty (candidate (host_naming opts) n)) as [c0|]; [|done].
  cbv zeta. do 3 step_run.
  step_run.
  match goal with |- context [evaluator env ?l] =>
    destruct (evaluator env l) as [e1|] eqn:He1 end.
  { intros Heq. simplify_eq. eexists _, _, _. split; [done|].
    cbn [inventory]. split; [exact He1|apply last_snoc]. }
  step_run.
  match goal with |- context [evaluator env ?l] =>
    destruct (evaluator env l) as [e2|] eqn:He2 end.
  { intros Heq. simplify_eq. eexists _, _, _. split; [done|].
    cbn [inventory]. split; [exact He2|apply last_snoc]. }
  step_run.
  match goal with |- context [evaluator env ?l] =>
    destruct (evaluator env l) as [e3|] eqn:He3 end.
  { intros Heq. simplify_eq. eexists _, _, _. split; [done|].
    cbn [inventory]. split; [exact He3|apply last_snoc]. }
  done.
Qed.

Lemma for_nodes_failure nodes seen w w' f :
  for_nodes env opts pid controller_host nodes seen w = (w', inl f) →
  ∃ c h host,
    f = evaluation_error c
    ∧ evaluator env (inventory w') = Some c
    ∧ last (inventory w') = Some (constructed h host (strict opts)).
Proof.
  revert seen w. induction nodes as [|n rest IH]; intros seen w; [done|].
  rewrite for_nodes_cons.
  destruct (process_node env opts pid controller_host n seen w)
    as [w1 [f1|seen1]] eqn:Hn.
  - intros [= <- <-]. by eapply process_node_failure.
  - apply IH.
Qed.
End LoopFailure.

(** Where the last element of a list that ends in [e] can be found. *)
Lemma snoc_split {A} (l pre post : list A) (e x : A) :
  l ++ [e] = pre ++ x :: post →
  (post = [] ∧ pre = l ∧ x = e)
  ∨ ∃ post', post = post' ++ [e] ∧ l = pre ++ x :: post'.
Proof.
  destruct post as [|y post' _] using rev_ind.
  - intros [-> ->]%app_inj_tail. by left.
  - rewrite app_comm_cons, app_assoc. intros [-> ->]%app_inj_tail.
    right. by exists post'.
Qed.

Lemma evaluator_returned_nil env : evaluator_returned env [].
Proof. intros pre h host s post Heq. by destruct pre. Qed.

Lemma evaluator_returned_snoc env evs e :
  evaluator_returned env evs →
  (∀ h host s, e = constructed h host s → evaluator env (evs ++ [e]) = None) →
  evaluator_returned env (evs ++ [e]).
Proof.
  intros Hevs He pre h host s post Heq.
  apply snoc_split in Heq as [(_ & -> & Hx)|(post' & _ & ->)].
  - rewrite Hx. by apply (He h host s).
  - by eapply Hevs.
Qed.

Lemma evaluator_returned_app env evs es :
  evaluator_returned env evs →
  (∀ e h host s, e ∈ es → e ≠ constructed h host s) →
  evaluator_returned env (evs ++ es).
Proof.
  revert evs. induction es as [|e es IH]; intros evs Hevs Hes.
  { by rewrite app_nil_r. }
  replace (evs ++ e :: es) with ((evs ++ [e]) ++ es)
    by (by rewrite <- app_assoc).
  refine (IH (evs ++ [e]) _ _).
  - apply evaluator_returned_snoc; [done|].
    intros h host s ->. by destruct (Hes _ h host s (list_elem_of_here _ _)).
  - intros e' h host s Hin. apply Hes. by right.
Qed.

Section LoopEvaluator.
Variable env : collaborators.
Variables (opts : options) (pid : option string) (controller_host : string).

(** An iteration goes on only past evaluator calls that returned, and a
    call that raised ends it. *)
Lemma process_node_evaluator n seen w w' r :
  evaluator_returned env (inventory w) →
  process_node env opts pid controller_host n seen w = (w', r) →
  match r with
  | inr _ => evaluator_returned env (inventory w')
  | inl f =>
      ∃ c evs h host s,
        f = evaluation_error c
        ∧ inventory w' = evs ++ [constructed h host s]
        ∧ evaluator_returned env evs
        ∧ evaluator env (inventory w') = Some c
  end.
Proof.
  intros Hw. unfold process_node.
  destruct (nonempty (candidate (host_naming opts) n)) as [c0|];
    [|intros [= <- <-]; done].
  cbv zeta. do 3 step_run.
  set (host := dedup seen c0 n).
  assert (evaluator_returned env
            (((inventory w ++ [add_host host (group opts)])
              ++ host_vars pid controller_host
                   (default 0%Z (port_offset opts)) host n)
             ++ type_group (group_by_node_type opts) host n)) as Hmapped.
  { apply evaluator_returned_app; [apply evaluator_returned_app|].
    - apply evaluator_returned_snoc; [done|]. by intros h0 host0 s0.
    - intros e h0 host0 s0 (k & v & ->)%host_vars_set_variable. done.
    - intros e h0 host0 s0 (_ & t & _ & [->| ->])%type_group_event; done. }
  step_run.
  match goal with |- context [evaluator env ?l] =>
    destruct (evaluator env l) as [e1|] eqn:He1 end.
  { intros Heq. simplify_eq. eexists _, _, _, _, _. split; [done|].
    cbn [inventory]. split; [done|]. split; [exact Hmapped|exact He1]. }
  assert (evaluator_returned env
            ((((inventory w ++ [add_host host (group opts)])
               ++ host_vars pid controller_host
                    (default 0%Z (port_offset opts)) host n)
              ++ type_group (group_by_node_type opts) host n)
             ++ [constructed _set_composite_vars host (strict opts)])) as H1.
  { apply evaluator_returned_snoc; [done|]. intros ? ? ? _. exact He1. }
  step_run.
  match goal with |- context [evaluator env ?l] =>
    destruct (evaluator env l) as [e2|] eqn:He2 end.
  { intros Heq. simplify_eq. eexists _, _, _, _, _. split; [done|].
    cbn [inventory]. split; [done|]. split; [exact H1|exact He2]. }
  assert (evaluator_returned env
            (((((inventory w ++ [add_host host (group opts)])
                ++ host_vars pid controller_host
                     (default 0%Z (port_offset opts)) host n)
               ++ type_group (group_by_node_type opts) host n)
              ++ [constructed _set_composite_vars host (strict opts)])
             ++ [constructed _add_host_to_composed_groups host (strict opts)]))
    as H2.
  { apply evaluator_returned_snoc; [done|]. intros ? ? ? _. exact He2. }
  step_run.
  match goal with |- context [evaluator env ?l] =>
    destruct (evaluator env l) as [e3|] eqn:He3 end.
  { intros Heq. simplify_eq. eexists _, _, _, _, _. split; [done|].
    cbn [inventory]. split; [done|]. split; [exact H2|exact He3]. }
  intros Heq. unfold mret, M_ret in Heq. simplify_eq. cbn [inventory].
  apply evaluator_returned_snoc; [done|]. intros ? ? ? _. exact He3.
Qed.

Lemma for_nodes_evaluator nodes seen w w' r :
  evaluator_returned env (inventory w) →
  for_nodes env opts pid controller_host nodes seen w = (w', r) →
  match r with
  | inr _ => evaluator_returned env (inventory w')
  | inl f =>
      ∃ c evs h host s,
        f = evaluation_error c
        ∧ inventory w' = evs ++ [constructed h host s]
        ∧ evaluator_returned env evs
        ∧ evaluator env (inventory w') = Some c
  end.
Proof.
  revert seen w. induction nodes as [|n rest IH]; intros seen w Hw.
  { intros Heq. simpl in Heq. unfold mret, M_ret in Heq. by simplify_eq. }
  rewrite for_nodes_cons.
  destruct (process_node env opts pid controller_host n seen w)
    as [w1 [f1|seen1]] eqn:Hn;
    pose proof (process_node_evaluator _ _ _ _ _ Hw Hn) as H1.
  - intros [= <- <-]. exact H1.
  - by apply IH.
Qed.
End LoopEvaluator.

(** X16. The plugin never catches an exception of the evaluator.  When a
    run on a fresh inventory ends with one, the call that raised is an
    evaluator call and the last call made.  And an evaluator call of the
    run at which the evaluator raises is always the last call made, the
    run ending with that exception: no variable is set, no host added and
    no node mapped after it. *)
Theorem evaluator_exception_ends_the_run
    (env : collaborators) (opts : options) (cache_key : string)
    (cache : bool) (w : world) :
  inventory w = [] →
  let res := parse env opts cache_key cache w in
  (∀ c, res.2 = inl (evaluation_error c) →
     evaluator env (inventory res.1) = Some c
     ∧ ∃ h host,
         last (inventory res.1) = Some (constructed h host (strict opts)))
  ∧ (∀ pre h host s post c,
       inventory res.1 = pre ++ constructed h host s :: post →
       evaluator env (pre ++ [constructed h host s]) = Some c →
       post = [] ∧ res.2 = inl (evaluation_error c)).
Proof.
  intros Hw res. subst res. rewrite parse_run.
  pose proof (fetch_frame env opts cache_key (cache && cache_option opts) w)
    as Hfr.
  destruct (fetch env opts cache_key _ w) as [w1 [f|payload]] eqn:Hfetch;
    simpl in Hfr.
  { pose proof (fetch_error _ _ _ _ _ _ _ Hfetch) as [e ->].
    cbn [fst snd]. split; [done|].
    intros pre h host s post c Heq. rewrite Hfr, Hw in Heq. by destruct pre. }
  cbv zeta.
  match goal with |- context [for_nodes ?e ?o ?p ?ch ?ns ?sn ?w2] =>
    assert (evaluator_returned env (inventory w2)) as Hstart;
      [|destruct (for_nodes e o p ch ns sn w2) as [w3 [f|seen]] eqn:Hloop;
        pose proof (for_nodes_evaluator _ _ _ _ _ _ _ _ _ Hstart Hloop) as Hend]
  end.
  { cbn [inventory]. rewrite Hfr, Hw.
    apply (evaluator_returned_snoc env []); [apply evaluator_returned_nil|].
    by intros h host s. }
  - cbn [fst snd]. split.
    + intros c [= ->].
      by apply for_nodes_failure in Hloop
        as (c' & h & host & [= <-] & Hc & Hlast); eauto.
    + destruct Hend as (c' & evs & h' & host' & s' & -> & Hinv & Hevs & Hc').
      intros pre h host s post c Heq Hc. rewrite Hinv in Heq.
      apply snoc_split in Heq as [(-> & <- & ?)|(post' & _ & ->)].
      * simplify_eq. rewrite Hinv in Hc'. split; [done|]. congruence.
      * rewrite (Hevs _ _ _ _ _ eq_refl) in Hc. done.
  - cbn [fst snd]. split; [done|].
    intros pre h host s post c Heq Hc.
    rewrite (Hend _ _ _ _ _ Heq) in Hc. done.
Qed.

(** X16, witness: two routers and an evaluator that raises at its first
    call; the run ends with that exception, at that call. *)
Lemma evaluator_exception_ends_the_run_witness :
  let env := raising (sample_env [R1; router "R2" "n2"]) in
  let res := parse env sample_opts "gns3.yml" true empty_world in
  let c := PyException "'gns3_role' is undefined" in
  inventory empty_world = []
  ∧ res.2 = inl (evaluation_error c)
  ∧ evaluator env (inventory res.1) = Some c
  ∧ ∃ h host,
      last (inventory res.1) = Some (constructed h host (strict sample_opts)).
Proof.
  intros env res c.
  assert (res.2 = inl (evaluation_error c)) as Hres by (vm_compute; reflexivity).
  split; [reflexivity|]. split; [exact Hres|].
  exact (proj1 (evaluator_exception_ends_the_run env sample_opts "gns3.yml"
                  true empty_world eq_refl) c Hres).
Defined.
